(** * RecTools: array set operations and the DSSM model without interactions

    A shallow embedding of

    - [rectools/utils/array_set_ops.py]: [fast_2d_int_unique],
      [fast_2d_2col_int_unique], [fast_isin],
      [fast_isin_for_sorted_test_elements];
    - [rectools/models/dssm_no_interactions.py]: [ItemNet], [UserNet],
      [DSSMNoInteractions], and the factor extraction of
      [DSSMModelNoInteractions].

    NumPy arrays are records of a dtype, a shape and the items in C order;
    integer items are mathematical integers inside the range of the dtype.
    Torch tensors hold real numbers: the development reasons about the
    exact arithmetic a float tensor approximates.  Python exceptions are
    values of [exn]; a function that can raise returns a [res]. *)

From Stdlib Require Import ZArith List String Lia Reals Lra.
From stdpp Require Import base decidable option list sorting.

Local Open Scope Z_scope.

(** ** Exceptions *)

Inductive exn : Type :=
  | TypeError (msg : string)
  | ValueError (msg : string)
  | RuntimeError (msg : string)
  | OverflowError (msg : string)
  | MemoryError (msg : string).

Inductive res (A : Type) : Type :=
  | Ok (a : A)
  | Raise (e : exn).
Arguments Ok {A} a.
Arguments Raise {A} e.

Global Instance res_ret : MRet res := fun A a => Ok a.
Global Instance res_bind : MBind res := fun A B f c =>
  match c with
  | Ok a => f a
  | Raise e => Raise e
  end.

Definition returns {A} (c : res A) : Prop := exists a, c = Ok a.

(** ** NumPy arrays *)

Module Numpy.

(** The dtypes the functions can meet.  [int_ s] and [uint_ s] are the
    signed and unsigned integers of [s] bytes. *)
Inductive dtype : Type :=
  | int_ (itemsize : nat)
  | uint_ (itemsize : nat)
  | bool_
  | float_ (itemsize : nat)
  | object_.

Global Instance dtype_eq_dec : EqDecision dtype.
Proof. solve_decision. Defined.

Definition itemsize (d : dtype) : nat :=
  match d with
  | int_ s | uint_ s | float_ s => s
  | bool_ => 1
  | object_ => 8
  end.

(** [np.issubdtype(d, np.integer)] *)
Definition issubdtype_integer (d : dtype) : bool :=
  match d with
  | int_ _ | uint_ _ => true
  | _ => false
  end.

(** [is_object_dtype] of pandas *)
Definition is_object_dtype (d : dtype) : bool :=
  match d with
  | object_ => true
  | _ => false
  end.

Record ndarray : Type := mk_ndarray {
  dtype_of : dtype;
  shape : list nat;
  data : list Z
}.

Definition ndim (a : ndarray) : nat := length (shape a).

(** [a.shape[i]] *)
Definition shape_at (a : ndarray) (i : nat) : nat := nth i (shape a) 0%nat.

Definition in_range (d : dtype) (z : Z) : Prop :=
  match d with
  | int_ s => - 2 ^ (8 * Z.of_nat s - 1) <= z < 2 ^ (8 * Z.of_nat s - 1)
  | uint_ s => 0 <= z < 2 ^ (8 * Z.of_nat s)
  | bool_ => 0 <= z < 2
  | _ => True
  end.

(** The invariant of an array: as many items as the shape says, each inside
    the range of the dtype, and items of at least one byte. *)
Record wf (a : ndarray) : Prop := mk_wf {
  wf_size : length (data a) = foldr Nat.mul 1%nat (shape a);
  wf_range : Forall (in_range (dtype_of a)) (data a);
  wf_itemsize : (0 < itemsize (dtype_of a))%nat
}.

(** The rows of a 2-dimensional array. *)
Definition rows (a : ndarray) : list (list Z) :=
  reshape (replicate (shape_at a 0) (shape_at a 1)) (data a).

(** [arr[:, j]] *)
Definition column (j : nat) (a : ndarray) : list Z :=
  (fun r => nth j r 0) <$> rows a.

(** [np.array(rs)] for a list of [m]-wide rows. *)
Definition of_rows (d : dtype) (m : nat) (rs : list (list Z)) : ndarray :=
  {| dtype_of := d; shape := [length rs; m]; data := concat rs |}.

End Numpy.

(** ** The NumPy, pandas and SciPy primitives the utilities call *)

Module NumpyOps.
Import Numpy.

(** *** Raw memory: an item as its bytes

    Little-endian two's complement, [s] bytes; a byte is an integer in
    [0, 256). *)
Fixpoint to_bytes (s : nat) (z : Z) : list Z :=
  match s with
  | O => []
  | S s' => z mod 256 :: to_bytes s' (z / 256)
  end.

Fixpoint of_bytes_unsigned (bs : list Z) : Z :=
  match bs with
  | [] => 0
  | b :: bs' => b + 256 * of_bytes_unsigned bs'
  end.

(** The item a dtype reads from [itemsize] bytes. *)
Definition of_bytes (d : dtype) (bs : list Z) : Z :=
  let u := of_bytes_unsigned bs in
  match d with
  | int_ s => if 2 ^ (8 * Z.of_nat s - 1) <=? u then u - 2 ^ (8 * Z.of_nat s) else u
  | _ => u
  end.

(** [memcmp] of two blobs: the order NumPy sorts [np.void] items by. *)
Fixpoint void_compare (a b : list Z) : comparison :=
  match a, b with
  | [], [] => Eq
  | [], _ :: _ => Lt
  | _ :: _, [] => Gt
  | x :: a', y :: b' =>
      match x ?= y with
      | Eq => void_compare a' b'
      | c => c
      end
  end.

Definition void_le (a b : list Z) : Prop := void_compare a b <> Gt.

Global Instance void_le_dec : RelDecision void_le.
Proof. intros a b. unfold void_le. solve_decision. Defined.

(** The blob a row of items occupies, and the items a blob holds when it is
    read with dtype [d]. *)
Definition row_blob (d : dtype) (r : list Z) : list Z :=
  r ≫= to_bytes (itemsize d).

Definition blob_items (d : dtype) (blob : list Z) : list Z :=
  of_bytes d <$>
    reshape (replicate (length blob / itemsize d)%nat (itemsize d)) blob.

(** [np.ascontiguousarray(arr).view(np.dtype((np.void, size)))] of a
    2-dimensional array, flattened.  With [size = itemsize * ncols > 0] every
    row becomes one blob.  A void dtype of size 0 is an unsized one, and
    viewing as an unsized void keeps the item size of the array: the view
    has the shape of the array, which then has no item at all. *)
Definition view_void (size : nat) (arr : ndarray) : list (list Z) :=
  if (size =? 0)%nat then []
  else row_blob (dtype_of arr) <$> rows arr.

(** [blobs.view(d)]: every blob read as items of dtype [d], flattened. *)
Definition view_items (d : dtype) (blobs : list (list Z)) : list Z :=
  blobs ≫= blob_items d.

(** *** [np.unique(ar, return_inverse=True)] on a 1-dimensional array

    As [numpy.lib.arraysetops._unique1d]: sort with the permutation kept,
    mark every item that differs from its predecessor, keep the marked ones,
    and scatter the running count of marks back through the permutation. *)
Section unique.
Context {A : Type} `{EqDecision A} (le : relation A) `{!RelDecision le}.

Definition key_le : relation (nat * A) := fun p q => le p.2 q.2.

Global Instance key_le_dec : RelDecision key_le.
Proof. intros p q. unfold key_le. apply _. Defined.

(** [perm = ar.argsort()] paired with [aux = ar[perm]] *)
Definition argsort (ar : list A) : list (nat * A) :=
  merge_sort key_le (zip (seq 0 (length ar)) ar).

(** [aux[1:] != aux[:-1]], for [aux = prev :: t] *)
Definition marks (prev : A) (t : list A) : list bool :=
  zip_with (fun prev cur => bool_decide (cur <> prev)) (prev :: t) t.

(** [mask[:1] = True; mask[1:] = aux[1:] != aux[:-1]] *)
Definition adjacent_mask (aux : list A) : list bool :=
  match aux with
  | [] => []
  | x :: t => true :: marks x t
  end.

(** [aux[mask]] *)
Fixpoint compress (mask : list bool) (aux : list A) : list A :=
  match mask, aux with
  | b :: mask', x :: aux' =>
      if b then x :: compress mask' aux' else compress mask' aux'
  | _, _ => []
  end.

(** [np.cumsum(mask)], started at [acc] *)
Fixpoint cumsum (acc : nat) (mask : list bool) : list nat :=
  match mask with
  | [] => []
  | b :: mask' =>
      let acc' := (acc + if b then 1 else 0)%nat in
      acc' :: cumsum acc' mask'
  end.

(** [dst[idx] = vals]; [dst] is [np.empty], here an array of zeros *)
Definition scatter (dst idx vals : list nat) : list nat :=
  foldl (fun d iv => <[iv.1 := iv.2]> d) dst (zip idx vals).

Definition unique_inverse (ar : list A) : list A * list nat :=
  let sorted := argsort ar in
  let perm := sorted.*1 in
  let aux := sorted.*2 in
  let mask := adjacent_mask aux in
  let ret := compress mask aux in
  let imask := (fun c => (c - 1)%nat) <$> cumsum 0 mask in
  let inv_idx := scatter (replicate (length ar) 0%nat) perm imask in
  (ret, inv_idx).
End unique.
Global Arguments marks : simpl never.

(** *** [np.isin], [pd.Series.isin], [np.sort], [np.searchsorted]

    The items of a 1-dimensional array of any dtype are modelled by
    integers: values with a decidable equality and a total order. *)

(** The size of the smallest float that holds every integer of [s] bytes,
    or the largest float there is. *)
Definition float_for (s : nat) : nat := Nat.min 8 (2 * s).

(** [np.promote_types]: the smallest dtype both dtypes convert to.  A signed
    and an unsigned integer dtype meet in the next larger signed one, and
    [uint64] with a signed dtype in [float64]. *)
Definition promote_types (d1 d2 : dtype) : dtype :=
  match d1, d2 with
  | object_, _ | _, object_ => object_
  | bool_, d | d, bool_ => d
  | float_ a, float_ b => float_ (Nat.max a b)
  | float_ f, int_ s | float_ f, uint_ s
  | int_ s, float_ f | uint_ s, float_ f => float_ (Nat.max f (float_for s))
  | int_ a, int_ b => int_ (Nat.max a b)
  | uint_ a, uint_ b => uint_ (Nat.max a b)
  | int_ a, uint_ b | uint_ b, int_ a =>
      if (b <? a)%nat then int_ a
      else if (2 * b <=? 8)%nat then int_ (2 * b)
      else float_ 8
  end.

(** The bits of the significand of a float of [s] bytes. *)
Definition significand (s : nat) : Z :=
  match s with
  | 2%nat => 11
  | 4%nat => 24
  | _ => 53
  end.

(** The integer [z] as a float with a significand of [p] bits: the nearest
    representable value, ties to the even significand. *)
Definition round_float (p z : Z) : Z :=
  let a := Z.abs z in
  let e := Z.log2 a + 1 - p in
  if e <=? 0 then z
  else
    let q := a / 2 ^ e in
    let r := a mod 2 ^ e in
    let half := 2 ^ (e - 1) in
    let q' := if (half <? r) || ((r =? half) && Z.odd q) then q + 1 else q in
    Z.sgn z * (q' * 2 ^ e).

(** An item of an array converted to the common dtype [d]: conversions
    between integer dtypes keep the value of an item that is in range, the
    conversion to a float rounds it. *)
Definition cast (d : dtype) (z : Z) : Z :=
  match d with
  | float_ s => round_float (significand s) z
  | _ => z
  end.

(** [np.isin(elements, test_elements)] *)
Definition isin (elements test_elements : list Z) : list bool :=
  (fun e => bool_decide (e ∈ test_elements)) <$> elements.

(** [pd.Series(elements).isin(test_elements).values] *)
Definition pd_isin (elements test_elements : list Z) : list bool :=
  (fun e => bool_decide (e ∈ test_elements)) <$> elements.

(** [np.sort(a)] *)
Definition sort (a : list Z) : list Z := merge_sort Z.le a.

(** The binary search of [np.searchsorted]: the loop
    [while lo < hi: mid = lo + (hi - lo) / 2; if go_right(a[mid]): lo = mid + 1
    else: hi = mid], every iteration spending one unit of [fuel]. *)
Fixpoint bisect (go_right : Z -> bool) (a : list Z) (fuel lo hi : nat) : nat :=
  match fuel with
  | O => lo
  | S fuel' =>
      if (lo <? hi)%nat then
        let mid := (lo + (hi - lo) / 2)%nat in
        match a !! mid with
        | Some x =>
            if go_right x then bisect go_right a fuel' (mid + 1)%nat hi
            else bisect go_right a fuel' lo mid
        | None => lo
        end
      else lo
  end.

Inductive side : Type := left_side | right_side.

(** The search of [np.searchsorted] for one key [v], on items of one
    dtype. *)
Definition searchsorted1 (a : list Z) (sd : side) (v : Z) : nat :=
  let go_right x :=
    match sd with
    | left_side => x <? v
    | right_side => x <=? v
    end in
  bisect go_right a (length a) 0 (length a).

(** [np.searchsorted(a, v, side)]: both arrays are converted to their
    common dtype, and every key is searched for in the converted [a]. *)
Definition searchsorted (a v : ndarray) (sd : side) : list nat :=
  let d := promote_types (dtype_of a) (dtype_of v) in
  searchsorted1 (cast d <$> data a) sd <$> (cast d <$> data v).

End NumpyOps.

(** ** SciPy sparse matrices, as far as [fast_2d_2col_int_unique] uses them *)

Module Sparse.

(** A CSR matrix in canonical format: its shape and, for every row, the
    stored column indices ([indices[indptr[i]:indptr[i+1]]]).  The stored
    values are left out: they are all [True], [True + True] is [True], and
    only coordinates are read back. *)
Record csr : Type := mk_csr {
  csr_shape : Z * Z;
  csr_rows : list (list Z)
}.

(** [np.max] and [np.min] of a non-empty array *)
Definition np_max (l : list Z) : Z := foldr Z.max (hd 0 l) l.
Definition np_min (l : list Z) : Z := foldr Z.min (hd 0 l) l.

(** The column indices of the entries of row [i], in input order
    ([coo_tocsr]). *)
Definition cols_of_row (row col : list Z) (i : Z) : list Z :=
  (filter (fun rc => rc.1 = i) (zip row col)).*2.

(** [csr_sum_duplicates] on the sorted indices of one row: every run of
    equal column indices is merged into its first entry. *)
Fixpoint merge_runs (prev : Z) (l : list Z) : list Z :=
  match l with
  | [] => []
  | y :: t => if y =? prev then merge_runs prev t else y :: merge_runs y t
  end.

Definition sum_duplicates (l : list Z) : list Z :=
  match l with
  | [] => []
  | x :: t => x :: merge_runs x t
  end.

(** The stored column indices of row [i] once the matrix is canonical. *)
Definition canonical_row (row col : list Z) (i : Z) : list Z :=
  sum_duplicates (merge_sort Z.le (cols_of_row row col i)).

(** The largest dimension a sparse matrix can have: its indices are 32-bit
    or 64-bit signed integers. *)
Definition int64_max : Z := 2 ^ 63 - 1.

(** [sparse.csr_matrix((data, (row, col)))] with no shape given: the COO
    constructor infers the shape from the largest indices and checks the
    indices (SciPy 1.x messages), the conversion to CSR groups the entries by
    row, and [sum_duplicates] sorts the indices of every row and merges
    repeated coordinates.

    Indices that pass the checks give a matrix only inside two bounds.  The
    dimensions must fit the 64-bit index dtype.  The conversion to CSR
    allocates the row pointers, an array of [M + 1] indices; [capacity] is
    the largest number of items the machine can allocate an array for, and
    an allocation it refuses is a [MemoryError]. *)
Definition csr_matrix (capacity : Z) (row col : list Z) : res csr :=
  if (length row =? 0)%nat || (length col =? 0)%nat then
    Raise (ValueError "cannot infer dimensions from zero sized index arrays")
  else
    let M := np_max row + 1 in
    let N := np_max col + 1 in
    if (M <? 0) || (N <? 0) then
      Raise (ValueError "'shape' elements cannot be negative")
    else if np_min row <? 0 then
      Raise (ValueError "negative row index found")
    else if np_min col <? 0 then
      Raise (ValueError "negative column index found")
    else if int64_max <? Z.max M N then
      Raise (OverflowError "Python int too large to convert to C long")
    else if capacity <? M + 1 then
      Raise (MemoryError "Unable to allocate the array")
    else
      Ok {| csr_shape := (M, N);
            csr_rows := canonical_row row col <$> seqZ 0 M |}.

(** The errors the constructor raises on negative index arguments. *)
Definition construction_error (e : exn) : Prop :=
  e = ValueError "'shape' elements cannot be negative" \/
  e = ValueError "negative row index found" \/
  e = ValueError "negative column index found".

(** [csr.tocoo(copy=False)]: the stored coordinates, row by row;
    returns [(coo.row, coo.col)]. *)
Definition tocoo (c : csr) : list Z * list Z :=
  let entries :=
    concat (zip_with (fun i cs => (fun j => (i, j)) <$> cs)
                     (seqZ 0 (csr_shape c).1) (csr_rows c)) in
  (entries.*1, entries.*2).

(** [get_index_dtype]: 32-bit indices when the dimensions fit. *)
Definition index_dtype (c : csr) : Numpy.dtype :=
  if Z.max (csr_shape c).1 (csr_shape c).2 <=? 2 ^ 31 - 1
  then Numpy.int_ 4 else Numpy.int_ 8.

End Sparse.

(** ** [rectools/utils/array_set_ops.py] *)

Module ArraySetOps.
Import Numpy NumpyOps Sparse.

(** "Return unique rows of 2d numpy array and inverse indices.  Works only
    for integer arrays." *)
Definition fast_2d_int_unique (arr : ndarray) : res (ndarray * list nat) :=
  if negb (issubdtype_integer (dtype_of arr)) then
    Raise (TypeError "Only integer array is allowed")
  else if negb (ndim arr =? 2)%nat then
    Raise (ValueError "Only 2d array is allowed")
  else
    let arr_dtype := dtype_of arr in
    let arr_shape := shape arr in
    let size := (itemsize (dtype_of arr) * shape_at arr 1)%nat in
    let consolidated := view_void size arr in
    let '(unq_consolidated, inv_ids) := unique_inverse void_le consolidated in
    let unq_arr :=
      {| dtype_of := arr_dtype;
         shape := [length unq_consolidated; nth 1 arr_shape 0%nat];
         data := view_items arr_dtype unq_consolidated |} in
    Ok (unq_arr, inv_ids).

(** "Return unique rows of 2d numpy array with 2 columns.  Works only for
    integer arrays."  The sparse matrix is as large as the largest indices
    ask: [capacity] is the limit of the machine that [csr_matrix] meets. *)
Definition fast_2d_2col_int_unique (capacity : Z) (arr : ndarray)
    : res ndarray :=
  if negb (issubdtype_integer (dtype_of arr)) then
    Raise (TypeError "Only integer array is allowed")
  else if negb (ndim arr =? 2)%nat then
    Raise (ValueError "Only 2d array is allowed")
  else if negb (shape_at arr 1 =? 2)%nat then
    Raise (ValueError "Array must have 2 columns")
  else if (shape_at arr 0 =? 0)%nat then
    Ok arr
  else
    csr ← csr_matrix capacity (column 0 arr) (column 1 arr);
    let coo := tocoo csr in
    let res := of_rows (index_dtype csr) 2
                 (zip_with (fun r c => [r; c]) coo.1 coo.2) in
    Ok res.

(** The two exceptions the functions raise themselves. *)
Definition type_error (e : exn) : Prop :=
  e = TypeError "Only integer array is allowed".

Definition shape_error (e : exn) : Prop :=
  e = ValueError "Only 2d array is allowed" \/
  e = ValueError "Array must have 2 columns".

(** [elements.astype("O")] *)
Definition astype (d : dtype) (a : ndarray) : ndarray :=
  {| dtype_of := d; shape := shape a; data := data a |}.

(** "Effective version of [np.isin] that works well even if arrays have
    [object] types." *)
Definition fast_isin (elements test_elements : ndarray) : list bool :=
  if is_object_dtype (dtype_of elements) || is_object_dtype (dtype_of test_elements)
  then pd_isin (data (astype object_ elements)) (data (astype object_ test_elements))
  else isin (data elements) (data test_elements).

(** "Effective version of [np.isin] for case when array with test elements
    is sorted.  Works only with 1d arrays." *)
Definition fast_isin_for_sorted_test_elements
    (elements sorted_test_elements : ndarray) (invert : bool) : list bool :=
  let ss_result_left :=
    searchsorted sorted_test_elements elements left_side in
  let ss_result_right :=
    searchsorted sorted_test_elements elements right_side in
  if invert then
    zip_with (fun r l => negb (r =? l + 1)%nat) ss_result_right ss_result_left
  else
    zip_with (fun r l => (r =? l + 1)%nat) ss_result_right ss_result_left.

(** [np.sort(a)] of a 1-dimensional array *)
Definition sorted (a : ndarray) : ndarray :=
  {| dtype_of := dtype_of a; shape := shape a; data := NumpyOps.sort (data a) |}.

End ArraySetOps.

(** ** Torch tensors and the [torch.nn] pieces the model is built from *)

Module Torch.
Local Open Scope R_scope.

(** A 2-dimensional tensor of shape [(batch, width)]: its rows. *)
Abbreviation Tensor := (list (list R)).

Definition sum (l : list R) : R := foldr Rplus 0 l.

(** [torch.mean]; of no item it is [nan], which the reals do not have. *)
Definition mean (l : list R) : R := sum l / INR (length l).

Definition dot (w x : list R) : R := sum (zip_with Rmult w x).

(** Elementwise application and elementwise sum of equally shaped tensors. *)
Definition tmap (f : R -> R) (X : Tensor) : Tensor := (fun x : list R => f <$> x) <$> X.
Definition tadd (X Y : Tensor) : Tensor := zip_with (zip_with Rplus) X Y.

(** [F.elu] with its default [alpha = 1] *)
Definition elu (x : R) : R := if Rlt_dec 0 x then x else exp x - 1.

(** [nn.Linear]: a weight of shape [(out_features, in_features)] and an
    optional bias. *)
Record Linear : Type := mk_Linear {
  in_features : nat;
  out_features : nat;
  weight : list (list R);
  bias : option (list R)
}.

(** [nn.Linear(in_features, out_features, bias=with_bias)].  The initial
    parameters are drawn at random by Torch; here they are arguments, and
    [b0] is only used when the layer has a bias. *)
Definition nn_Linear (in_f out_f : nat) (with_bias : bool)
    (W0 : list (list R)) (b0 : list R) : Linear :=
  {| in_features := in_f;
     out_features := out_f;
     weight := W0;
     bias := if with_bias then Some b0 else None |}.

(** The shape Torch gives the parameters of a layer. *)
Definition Linear_wf (L : Linear) : Prop :=
  length (weight L) = out_features L /\
  Forall (fun w => length w = in_features L) (weight L).

(** [x @ W.T (+ b)] for one row *)
Definition linear_row (L : Linear) (x : list R) : list R :=
  let y := (fun w => dot w x) <$> weight L in
  match bias L with
  | Some b => zip_with Rplus y b
  | None => y
  end.

(** [F.linear] on a batch; rows that are not [in_features] wide raise. *)
Definition Linear_forward (L : Linear) (X : Tensor) : res Tensor :=
  if forallb (fun x => (length x =? in_features L)%nat) X then
    Ok (linear_row L <$> X)
  else
    Raise (RuntimeError "mat1 and mat2 shapes cannot be multiplied").

(** [F.pairwise_distance(x1, x2, p=2, eps)] for one pair of rows:
    the 2-norm of [x1 - x2 + eps]. *)
Definition pairwise_distance (eps : R) (x1 x2 : list R) : R :=
  sqrt (sum ((fun d => Rsqr (d + eps)) <$> zip_with Rminus x1 x2)).

Definition same_shape (X Y : Tensor) : bool :=
  (length X =? length Y)%nat &&
  forallb (fun xy => (length xy.1 =? length xy.2)%nat) (zip X Y).

(** The default [eps=1e-06] of [F.triplet_margin_loss]. *)
Definition default_eps : R := 1 / 1000000.

(** [F.triplet_margin_loss(anchor, positive, negative, margin, p=2, eps,
    swap=False, reduction='mean')]:
    [clamp_min(margin + dist_pos - dist_neg, 0)] averaged, the distances
    being [pairwise_distance]s.  Broadcasting of differently shaped
    arguments is not modelled: they raise. *)
Definition triplet_margin_loss (anchor positive negative : Tensor)
    (margin eps : R) : res R :=
  if same_shape anchor positive && same_shape anchor negative then
    let dist_pos := zip_with (pairwise_distance eps) anchor positive in
    let dist_neg := zip_with (pairwise_distance eps) anchor negative in
    let output := zip_with (fun dp dn => Rmax (margin + dp - dn) 0) dist_pos dist_neg in
    Ok (mean output)
  else
    Raise (RuntimeError "The size of tensor a must match the size of tensor b").

(** [torch.cat(tensors, dim=0)] of tensors of one width *)
Definition cat (tensors : list Tensor) : res Tensor :=
  match tensors with
  | [] => Raise (RuntimeError "torch.cat(): expected a non-empty list of Tensors")
  | _ => Ok (concat tensors)
  end.

End Torch.

(** ** [rectools/models/dssm_no_interactions.py] *)

Module ItemNet.
Import Torch.

Record t : Type := mk {
  embedding_layer : Linear;
  dense_layer : Linear;
  output_layer : Linear;
  activation : R -> R
}.

(** [ItemNet.__init__], given the initial weights of the three layers *)
Definition init (n_factors dim_input : nat) (activation : R -> R)
    (W_emb W_dense W_out : list (list R)) : t :=
  {| embedding_layer := nn_Linear dim_input n_factors false W_emb [];
     dense_layer := nn_Linear n_factors n_factors false W_dense [];
     output_layer := nn_Linear n_factors n_factors false W_out [];
     activation := activation |}.

Definition forward (self : t) (item_features : Tensor) : res Tensor :=
  e ← Linear_forward (embedding_layer self) item_features;
  let emb := tmap (activation self) e in
  d ← Linear_forward (dense_layer self) emb;
  let features := tmap (activation self) d in
  let x := tadd emb features in
  output ← Linear_forward (output_layer self) x;
  mret output.

Definition parameters (self : t) :=
  (weight (embedding_layer self), bias (embedding_layer self),
   weight (dense_layer self), bias (dense_layer self),
   weight (output_layer self), bias (output_layer self)).

End ItemNet.

Module UserNet.
Import Torch.

Record t : Type := mk {
  embedding_features_layer : Linear;
  features_dense_layer : Linear;
  output_layer : Linear;
  activation : R -> R
}.

(** [UserNet.__init__], given the initial weights of the three layers *)
Definition init (n_factors dim_input : nat) (activation : R -> R)
    (W_emb W_dense W_out : list (list R)) : t :=
  {| embedding_features_layer := nn_Linear dim_input n_factors false W_emb [];
     features_dense_layer := nn_Linear n_factors n_factors false W_dense [];
     output_layer := nn_Linear n_factors n_factors false W_out [];
     activation := activation |}.

Definition forward (self : t) (user_features : Tensor) : res Tensor :=
  e ← Linear_forward (embedding_features_layer self) user_features;
  let features_emb := tmap (activation self) e in
  d ← Linear_forward (features_dense_layer self) features_emb;
  let features_dense := tmap (activation self) d in
  let features_x := tadd features_emb features_dense in
  output ← Linear_forward (output_layer self) features_x;
  mret output.

Definition parameters (self : t) :=
  (weight (embedding_features_layer self), bias (embedding_features_layer self),
   weight (features_dense_layer self), bias (features_dense_layer self),
   weight (output_layer self), bias (output_layer self)).

End UserNet.

Module DSSMNoInteractions.
Import Torch.

(** The module and its hyperparameters; [training] is the mode flag of
    [nn.Module] that [self.eval()] clears. *)
Record t : Type := mk {
  user_net : UserNet.t;
  item_net : ItemNet.t;
  lr : R;
  triplet_loss_margin : R;
  weight_decay : R;
  log_to_prog_bar : bool;
  training : bool
}.

(** The weights of [UserNet] and [ItemNet] *)
Record weights : Type := mk_weights {
  W_emb : list (list R);
  W_dense : list (list R);
  W_out : list (list R)
}.

(** [DSSMNoInteractions.__init__], given the initial weights of both towers;
    a fresh module is in training mode. *)
Definition init (n_factors_user n_factors_item dim_input_user dim_input_item : nat)
    (activation : R -> R) (lr triplet_loss_margin weight_decay : R)
    (log_to_prog_bar : bool) (wu wi : weights) : t :=
  {| user_net := UserNet.init n_factors_user dim_input_user activation
                   (W_emb wu) (W_dense wu) (W_out wu);
     item_net := ItemNet.init n_factors_item dim_input_item activation
                   (W_emb wi) (W_dense wi) (W_out wi);
     lr := lr;
     triplet_loss_margin := triplet_loss_margin;
     weight_decay := weight_decay;
     log_to_prog_bar := log_to_prog_bar;
     training := true |}.

(** [self.parameters()] *)
Definition parameters (self : t) :=
  (UserNet.parameters (user_net self), ItemNet.parameters (item_net self)).

Definition forward (self : t)
    (item_features_pos item_features_neg user_features : Tensor)
    : res (Tensor * Tensor * Tensor) :=
  anchor ← UserNet.forward (user_net self) user_features;
  pos ← ItemNet.forward (item_net self) item_features_pos;
  neg ← ItemNet.forward (item_net self) item_features_neg;
  mret (anchor, pos, neg).

(** What [self.log(name, value, prog_bar=...)] records. *)
Definition log_entry : Type := string * R * bool.

Definition training_step (self : t) (batch : Tensor * Tensor * Tensor)
    : res (R * log_entry) :=
  let '(user_features, pos, neg) := batch in
  '(anchor, positive, negative) ← forward self pos neg user_features;
  loss ← triplet_margin_loss anchor positive negative
           (triplet_loss_margin self) default_eps;
  mret (loss, ("loss"%string, loss, log_to_prog_bar self)).

Definition validation_step (self : t) (batch : Tensor * Tensor * Tensor)
    : res (R * log_entry) :=
  let '(user_features, pos, neg) := batch in
  '(anchor, positive, negative) ← forward self pos neg user_features;
  val_loss ← triplet_margin_loss anchor positive negative
               (triplet_loss_margin self) default_eps;
  mret (val_loss, ("val_loss"%string, val_loss, log_to_prog_bar self)).

(** [self.eval()] *)
Definition eval (self : t) : t :=
  {| user_net := user_net self;
     item_net := item_net self;
     lr := lr self;
     triplet_loss_margin := triplet_loss_margin self;
     weight_decay := weight_decay self;
     log_to_prog_bar := log_to_prog_bar self;
     training := false |}.

(** The loop [for batch in dataloader: batches.append(net(batch))]; an
    exception of the tower ends it. *)
Fixpoint for_batches (net : Tensor -> res Tensor) (dataloader : list Tensor)
    (batches : list Tensor) : res (list Tensor) :=
  match dataloader with
  | [] => Ok batches
  | batch :: rest =>
      v_batch ← net batch;
      for_batches net rest (batches ++ [v_batch])
  end.

(** The module after the call, and the factors or the exception. *)
Definition inference_items (self : t) (dataloader : list Tensor)
    : t * res Tensor :=
  let self := eval self in
  (self,
   batches ← for_batches (ItemNet.forward (item_net self)) dataloader [];
   vectors ← cat batches;
   mret vectors).

Definition inference_users (self : t) (dataloader : list Tensor)
    : t * res Tensor :=
  let self := eval self in
  (self,
   batches ← for_batches (UserNet.forward (user_net self)) dataloader [];
   vectors ← cat batches;
   mret vectors).

End DSSMNoInteractions.

(** *** [DSSMModelNoInteractions]: the factors of a fitted model *)

Module DSSMModelNoInteractions.
Import Torch.

(** Iterating [DataLoader(dataset, batch_size=..., num_workers=...,
    shuffle=False)]: the items of the dataset in index order, [batch_size]
    at a time, the last batch with what is left.  A feature dataset
    ([UserFeaturesDatasetNoInteractions], [ItemFeaturesDataset]) is given by
    the dense feature rows it yields; [fuel] bounds the number of batches. *)
Fixpoint batches (fuel batch_size : nat) (items : list (list R))
    : list Tensor :=
  match fuel with
  | O => []
  | S fuel' =>
      match items with
      | [] => []
      | _ => take batch_size items
             :: batches fuel' batch_size (drop batch_size items)
      end
  end.

(** The constructor rejects a batch size that is not positive.  The number
    of workers changes how the batches are loaded, not what they are. *)
Definition DataLoader (dataset : list (list R)) (batch_size : nat)
    : res (list Tensor) :=
  if (batch_size =? 0)%nat then
    Raise (ValueError
      "batch_size should be a positive integer value, but got batch_size=0")
  else
    Ok (batches (length dataset) batch_size dataset).

(** [Factors(vectors)] *)
Record Factors : Type := mk_Factors { embeddings : Tensor }.

(** The fields of a fitted model that the factor extraction reads. *)
Record t : Type := mk {
  model : DSSMNoInteractions.t;
  batch_size : nat;
  dataloader_num_workers : nat
}.

(** [self.model] after a call that changed it in place. *)
Definition with_model (self : t) (m : DSSMNoInteractions.t) : t :=
  {| model := m;
     batch_size := batch_size self;
     dataloader_num_workers := dataloader_num_workers self |}.

(** [user_features] stands for
    [UserFeaturesDatasetNoInteractions.from_dataset(dataset)]. *)
Definition _get_users_factors (self : t) (user_features : list (list R))
    : t * res Factors :=
  match DataLoader user_features (batch_size self) with
  | Raise e => (self, Raise e)
  | Ok dataloader =>
      let run := DSSMNoInteractions.inference_users (model self) dataloader in
      (with_model self run.1, vectors ← run.2; mret (mk_Factors vectors))
  end.

(** [item_features] stands for [ItemFeaturesDataset.from_dataset(dataset)]. *)
Definition _get_items_factors (self : t) (item_features : list (list R))
    : t * res Factors :=
  match DataLoader item_features (batch_size self) with
  | Raise e => (self, Raise e)
  | Ok dataloader =>
      let run := DSSMNoInteractions.inference_items (model self) dataloader in
      (with_model self run.1, vectors ← run.2; mret (mk_Factors vectors))
  end.

End DSSMModelNoInteractions.

(** * What the specification says, as predicates on the embedding *)

Import Numpy NumpyOps Sparse ArraySetOps.

Definition raises_with {A} (P : exn -> Prop) (c : res A) : Prop :=
  exists e, c = Raise e /\ P e.

(** ** Unique rows *)

(** Indexing the unique rows by the inverse indices gives the rows of the
    array. *)
Definition rebuilds (arr unq : ndarray) (inv : list nat) : Prop :=
  forall i r, rows arr !! i = Some r ->
    exists j, inv !! i = Some j /\ rows unq !! j = Some r.

(** What is said of the result of [fast_2d_int_unique arr]. *)
Definition unique_rows_post (arr : ndarray) : Prop :=
  exists unq inv,
    fast_2d_int_unique arr = Ok (unq, inv) /\
    rebuilds arr unq inv /\
    NoDup (rows unq).

(** ** Unique pairs *)

(** A row of a 2-column array as a pair, and back. *)
Definition pair_of (r : list Z) : Z * Z := (nth 0 r 0, nth 1 r 0).
Definition row_of (p : Z * Z) : list Z := [p.1; p.2].

(** Ascending by column 0 and, within equal column 0, by column 1. *)
Definition row_le (p q : list Z) : Prop :=
  match p, q with
  | [a; b], [c; d] => a < c \/ (a = c /\ b <= d)
  | _, _ => False
  end.

Definition pair_lt (p q : Z * Z) : Prop :=
  p.1 < q.1 \/ (p.1 = q.1 /\ p.2 < q.2).

(** The coordinates read back from the rows [ks] of the sparse matrix. *)
Definition coords (row col : list Z) (ks : list Z) : list (Z * Z) :=
  concat ((fun i => (fun j => (i, j)) <$> canonical_row row col i) <$> ks).

(** The coordinate bound of the sparse structure: every entry is a valid
    index of a matrix with 64-bit indices, and the row pointers of a matrix
    with a row for every value of column 0 can be allocated. *)
Definition coordinate_bound (capacity : Z) (arr : ndarray) : Prop :=
  Forall (fun z => z < int64_max) (data arr) /\
  Forall (fun i => i + 2 <= capacity) (column 0 arr).

(** What is said of the result of [fast_2d_2col_int_unique arr]. *)
Definition unique_pairs_post (capacity : Z) (arr : ndarray) : Prop :=
  exists res,
    fast_2d_2col_int_unique capacity arr = Ok res /\
    (forall r, r ∈ rows res <-> r ∈ rows arr) /\
    NoDup (rows res) /\
    StronglySorted row_le (rows res).

(** ** Membership *)

(** The dtypes of the two arrays meet in an integer dtype: the conversion
    [np.searchsorted] makes before it compares keeps every item.  This
    leaves out [uint64] against a signed dtype, which meet in [float64]. *)
Definition common_integer_dtype (a v : ndarray) : Prop :=
  issubdtype_integer (promote_types (dtype_of a) (dtype_of v)) = true.

(** How often [v] occurs in [l]. *)
Definition occurrences (v : Z) (l : list Z) : nat :=
  length (List.filter (Z.eqb v) l).

(** ** Arrays used as examples *)

(** [[[2, 1], [1, 1], [1, 1], [2, 0]]] *)
Definition example_pairs : ndarray :=
  mk_ndarray (int_ 8) [4; 2]%nat [2; 1; 1; 1; 1; 1; 2; 0].

(** [np.zeros((1, 0), dtype=np.int64)] *)
Definition no_column_matrix : ndarray := mk_ndarray (int_ 8) [1; 0]%nat [].

(** [np.zeros((0, 2), dtype=np.int64)] *)
Definition no_row_matrix : ndarray := mk_ndarray (int_ 8) [0; 2]%nat [].

(** [[[-1, 0]]] *)
Definition negative_pair : ndarray := mk_ndarray (int_ 8) [1; 2]%nat [-1; 0].

(** [[1]] and [[1, 1]] *)
Definition one : ndarray := mk_ndarray (int_ 8) [1%nat] [1].
Definition one_twice : ndarray := mk_ndarray (int_ 8) [2%nat] [1; 1].

(** [np.array([[0, 2 ** 63]], dtype=np.uint64)] *)
Definition large_pair : ndarray :=
  mk_ndarray (uint_ 8) [1; 2]%nat [0; 2 ^ 63].

(** [np.array([2 ** 53 + 1], dtype=np.uint64)] and
    [np.array([2 ** 53], dtype=np.int64)] *)
Definition odd_uint64 : ndarray := mk_ndarray (uint_ 8) [1%nat] [2 ^ 53 + 1].
Definition even_int64 : ndarray := mk_ndarray (int_ 8) [1%nat] [2 ^ 53].

(** The capacity of a machine that allocates arrays of up to [2 ^ 31]
    items. *)
Definition example_capacity : Z := 2 ^ 31.

(** ** The two-tower model *)

Section model_statements.
Import Torch DSSMNoInteractions.
Local Open Scope R_scope.

(** [W x]: the product of the matrix [W] and the vector [x] *)
Definition matvec (W : list (list R)) (x : list R) : list R :=
  (fun w => dot w x) <$> W.

(** The encoder tower as the architecture describes it:
    [base = act (W_emb x)], [residual = act (W_dense base)],
    [output = W_out (base + residual)]. *)
Definition tower (act : R -> R) (W_emb W_dense W_out : list (list R))
    (x : list R) : list R :=
  let base := act <$> matvec W_emb x in
  let residual := act <$> matvec W_dense base in
  matvec W_out (zip_with Rplus base residual).

Definition tower_of (act : R -> R) (w : weights) : list R -> list R :=
  tower act (W_emb w) (W_dense w) (W_out w).

(** The weights of a tower with [n_factors] outputs and [dim_input] inputs
    have the shapes the three layers give them. *)
Definition weights_wf (n_factors dim_input : nat) (w : weights) : Prop :=
  Linear_wf (nn_Linear dim_input n_factors false (W_emb w) []) /\
  Linear_wf (nn_Linear n_factors n_factors false (W_dense w) []) /\
  Linear_wf (nn_Linear n_factors n_factors false (W_out w) []).

(** A tensor of shape [(batch, width)] *)
Definition has_shape (batch width : nat) (X : Tensor) : Prop :=
  length X = batch /\ Forall (fun x => length x = width) X.

(** The three towers applied to three inputs named in the order
    [(user_features, item_features_pos, item_features_neg)]. *)
Definition towers (self : t)
    (user_features item_features_pos item_features_neg : Tensor)
    : res (Tensor * Tensor * Tensor) :=
  anchor ← UserNet.forward (user_net self) user_features;
  pos ← ItemNet.forward (item_net self) item_features_pos;
  neg ← ItemNet.forward (item_net self) item_features_neg;
  mret (anchor, pos, neg).

(** The Euclidean distance of two rows. *)
Definition euclidean (x y : list R) : R :=
  sqrt (sum (Rsqr <$> zip_with Rminus x y)).

(** [max(0, margin + d(anchor, pos) - d(anchor, neg))] per sample, averaged
    over the batch. *)
Definition triplet_mean (d : list R -> list R -> R) (margin : R)
    (anchor pos neg : Tensor) : R :=
  mean (zip_with (fun a pn => Rmax 0 (margin + d a pn.1 - d a pn.2))
                 anchor (zip pos neg)).

(** What is said of the factors [run] that an inference over [dataloader]
    with the tower [net] returns: one row per element the dataloader yields,
    in order, each the output of the tower on that element. *)
Definition inference_post (net : Tensor -> res Tensor)
    (dataloader : list Tensor) (run : res Tensor) : Prop :=
  exists vectors,
    run = Ok vectors /\
    length vectors = length (concat dataloader) /\
    forall i x, concat dataloader !! i = Some x ->
      exists v, vectors !! i = Some v /\ net [x] = Ok [v].

(** A module with both towers one input wide and one factor wide, every
    weight 1, and the default hyperparameters. *)
Definition unit_weights : weights :=
  {| W_emb := [[1]]; W_dense := [[1]]; W_out := [[1]] |}.

Definition unit_model : t :=
  init 1 1 1 1 elu (1 / 100) (4 / 10) (1 / 1000000) true
       unit_weights unit_weights.

End model_statements.

(** * Further notions, for what the code shows beyond the specification *)

(** Strictly ascending for an order [le]: ascending and different. *)
Definition lt_of {A : Type} (le : relation A) : relation A :=
  fun x y => le x y /\ x <> y.

(** The order of two rows in memory: [memcmp] of their blobs. *)
Definition blob_lt (d : dtype) (r s : list Z) : Prop :=
  void_compare (row_blob d r) (row_blob d s) = Lt.

(** [[[2, 0], [1, 1], [2, 1]]]: the rows of [example_pairs], once each and
    in another order. *)
Definition example_pairs_once : ndarray :=
  mk_ndarray (int_ 8) [3; 2]%nat [2; 0; 1; 1; 2; 1].

(** What [F.linear] raises when a row is not as wide as the layer. *)
Definition width_error : exn :=
  RuntimeError "mat1 and mat2 shapes cannot be multiplied".

(** What [torch.cat] raises on an empty list. *)
Definition empty_cat_error : exn :=
  RuntimeError "torch.cat(): expected a non-empty list of Tensors".

(** * Proofs: the array utilities *)

(** ** [np.unique] with inverse indices *)

Section unique_facts.
Context {A : Type} `{EqDecision A} (le : relation A) `{!RelDecision le}.

Lemma marks_cons (p y : A) (t : list A) :
  marks p (y :: t) = bool_decide (y <> p) :: marks y t.
Proof. reflexivity. Qed.

(** Every item sits, in the kept items, at the running count of marks
    minus one. *)
Lemma run_lookup (t : list A) : forall (p : A) (kept : list A) (j : nat) (x : A),
  t !! j = Some x ->
  exists c,
    cumsum (S (length kept)) (marks p t) !! j = Some (S c) /\
    ((kept ++ [p]) ++ compress (marks p t) t) !! c = Some x.
Proof.
  induction t as [|y t IH]; intros p kept j x Hj; [done|].
  rewrite marks_cons. simpl. case_bool_decide as Hyp.
  - rewrite Nat.add_1_r. destruct j as [|j]; simplify_eq/=.
    + exists (S (length kept)). split; [done|].
      rewrite lookup_app_r; rewrite length_app; simpl; [|lia].
      by replace (S (length kept) - (length kept + 1))%nat with 0%nat by lia.
    + destruct (IH y (kept ++ [p]) j x Hj) as (c & Hc & Hx).
      exists c. rewrite length_app in Hc. simpl in Hc.
      rewrite Nat.add_1_r in Hc.
      split; [done|]. by rewrite <- (assoc_L (++)) in Hx.
  - rewrite Nat.add_0_r. subst y. destruct j as [|j]; simplify_eq/=.
    + exists (length kept). split; [done|].
      rewrite <- (assoc_L (++)). simpl. by apply list_lookup_middle.
    + by apply IH.
Qed.

Lemma unique_lookup (aux : list A) (j : nat) (x : A) :
  aux !! j = Some x ->
  exists c,
    cumsum 0 (adjacent_mask aux) !! j = Some (S c) /\
    compress (adjacent_mask aux) aux !! c = Some x.
Proof.
  destruct aux as [|x0 t]; [done|]. intros Hj. simpl.
  destruct j as [|j]; simplify_eq/=; [by exists 0%nat|].
  destruct (run_lookup t x0 [] j x Hj) as (c & Hc & Hx). eauto.
Qed.

Lemma elem_of_compress (mask : list bool) (aux : list A) x :
  x ∈ compress mask aux -> x ∈ aux.
Proof.
  revert aux. induction mask as [|b mask IH]; intros [|y aux]; simpl;
    rewrite ?elem_of_nil; try done.
  destruct b; rewrite ?elem_of_cons; intros; intuition auto.
Qed.

(** On a sorted array the kept items are pairwise different. *)
Lemma run_NoDup `{!AntiSymm (=) le} (t : list A) : forall p : A,
  StronglySorted le (p :: t) ->
  Forall (fun z => z <> p) (compress (marks p t) t) /\
  NoDup (compress (marks p t) t).
Proof.
  induction t as [|y t IH]; intros p Hs.
  { split; constructor. }
  apply StronglySorted_cons in Hs as [Hp Hs].
  apply Forall_cons in Hp as [Hpy Hp].
  destruct (IH y Hs) as [Hne Hnd].
  rewrite marks_cons. simpl. case_bool_decide as Hyp.
  - split.
    + constructor; [done|]. apply Forall_forall. intros z Hz Hzp. subst z.
      apply elem_of_compress in Hz.
      apply StronglySorted_cons in Hs as [Hy _].
      rewrite Forall_forall in Hy. apply Hyp.
      apply (anti_symm le); auto.
    + constructor; [|done]. rewrite Forall_forall in Hne.
      intros Hin. by apply (Hne _ Hin).
  - by subst y.
Qed.

Lemma unique_NoDup `{!AntiSymm (=) le} (aux : list A) :
  StronglySorted le aux -> NoDup (compress (adjacent_mask aux) aux).
Proof.
  destruct aux as [|x0 t]; intros Hs; simpl; [constructor|].
  destruct (run_NoDup t x0 Hs) as [Hne Hnd]. constructor; [|done].
  rewrite Forall_forall in Hne. intros Hin. by apply (Hne _ Hin).
Qed.

Lemma length_scatter (idx vals dst : list nat) :
  length (scatter dst idx vals) = length dst.
Proof.
  unfold scatter. revert dst vals.
  induction idx as [|p idx IH]; intros dst [|v vals]; simpl; try done.
  by rewrite IH, length_insert.
Qed.

Lemma scatter_other (idx : list nat) : forall (vals dst : list nat) (p : nat),
  p ∉ idx -> scatter dst idx vals !! p = dst !! p.
Proof.
  unfold scatter.
  induction idx as [|q idx IH]; intros [|v vals] dst p Hp; simpl; try done.
  apply not_elem_of_cons in Hp as [Hpq Hp].
  rewrite IH by done. by apply list_lookup_insert_ne.
Qed.

(** Writing through a permutation: every slot holds the value written
    to it. *)
Lemma scatter_lookup (idx : list nat) : forall (vals dst : list nat) j p v,
  NoDup idx ->
  Forall (fun q => (q < length dst)%nat) idx ->
  idx !! j = Some p -> vals !! j = Some v ->
  scatter dst idx vals !! p = Some v.
Proof.
  induction idx as [|q idx IH]; intros [|w vals] dst j p v Hnd Hlt Hp Hv;
    try done.
  apply NoDup_cons in Hnd as [Hq Hnd]. apply Forall_cons in Hlt as [Hqlt Hlt].
  destruct j as [|j]; simplify_eq/=.
  - change (scatter (<[p:=v]> dst) idx vals !! p = Some v).
    rewrite scatter_other by done. by apply list_lookup_insert_eq.
  - change (scatter (<[q:=w]> dst) idx vals !! p = Some v).
    apply (IH vals _ j); auto.
    eapply Forall_impl; [exact Hlt|]. intros ? ?. by rewrite length_insert.
Qed.

Lemma argsort_Permutation (ar : list A) :
  argsort le ar ≡ₚ zip (seq 0 (length ar)) ar.
Proof. apply merge_sort_Permutation. Qed.

Lemma argsort_indices (ar : list A) :
  (argsort le ar).*1 ≡ₚ seq 0 (length ar).
Proof.
  rewrite argsort_Permutation. rewrite fst_zip; [done|].
  by rewrite length_seq.
Qed.

Lemma argsort_items (ar : list A) :
  (argsort le ar).*2 ≡ₚ ar.
Proof.
  rewrite argsort_Permutation. rewrite snd_zip; [done|].
  by rewrite length_seq.
Qed.

Lemma argsort_lookup (ar : list A) (i : nat) (x : A) :
  ar !! i = Some x -> exists j, argsort le ar !! j = Some (i, x).
Proof.
  intros Hi. apply list_elem_of_lookup. rewrite argsort_Permutation.
  apply list_elem_of_lookup. exists i. apply lookup_zip_Some. split; [|done].
  apply lookup_seq. split; [done|]. by eapply lookup_lt_Some.
Qed.

(** The contract of [np.unique(ar, return_inverse=True)]: the inverse
    indices rebuild [ar] from the unique items. *)
Lemma unique_inverse_rebuilds (ar : list A) (i : nat) (x : A) :
  ar !! i = Some x ->
  exists c, (unique_inverse le ar).2 !! i = Some c /\
            (unique_inverse le ar).1 !! c = Some x.
Proof.
  intros Hi. destruct (argsort_lookup ar i x Hi) as [j Hj].
  unfold unique_inverse. cbn [fst snd].
  assert (Haux : (argsort le ar).*2 !! j = Some x).
  { rewrite list_lookup_fmap, Hj. done. }
  assert (Hperm : (argsort le ar).*1 !! j = Some i).
  { rewrite list_lookup_fmap, Hj. done. }
  destruct (unique_lookup _ j x Haux) as (c & Hc & Hx).
  exists c. split; [|done].
  apply (scatter_lookup _ _ _ j).
  - rewrite argsort_indices. apply NoDup_seq.
  - rewrite argsort_indices. apply Forall_forall. intros q Hq.
    apply elem_of_seq in Hq. rewrite length_replicate. lia.
  - done.
  - rewrite list_lookup_fmap, Hc. simpl. f_equal. lia.
Qed.

Lemma length_unique_inverse (ar : list A) :
  length (unique_inverse le ar).2 = length ar.
Proof.
  unfold unique_inverse. cbn [snd].
  by rewrite length_scatter, length_replicate.
Qed.

Lemma unique_inverse_subset (ar : list A) (x : A) :
  x ∈ (unique_inverse le ar).1 -> x ∈ ar.
Proof.
  unfold unique_inverse. cbn [fst]. intros Hx%elem_of_compress.
  by rewrite argsort_items in Hx.
Qed.

(** The unique items are pairwise different. *)
Lemma unique_inverse_NoDup
    `{!Total le} `{!Transitive le} `{!AntiSymm (=) le} (ar : list A) :
  NoDup (unique_inverse le ar).1.
Proof.
  unfold unique_inverse. cbn [fst]. apply unique_NoDup.
  apply Sorted_StronglySorted; [done|].
  apply (Sorted_fmap snd (key_le le)); [by intros [] []|].
  apply Sorted_merge_sort. intros [] []. unfold key_le. simpl. apply total, _.
Qed.
End unique_facts.

(** ** The order of blobs *)

Lemma void_compare_eq (a : list Z) : forall b, void_compare a b = Eq -> a = b.
Proof.
  induction a as [|x a IH]; intros [|y b] H; simpl in H; try done.
  destruct (Z.compare_spec x y); try done. subst. f_equal. auto.
Qed.

Lemma void_compare_antisym (a : list Z) : forall b,
  void_compare b a = CompOpp (void_compare a b).
Proof.
  induction a as [|x a IH]; intros [|y b]; simpl; try done.
  rewrite (Z.compare_antisym x y).
  destruct (x ?= y); simpl; auto.
Qed.

Lemma void_compare_trans (a : list Z) : forall b c,
  void_compare a b <> Gt -> void_compare b c <> Gt -> void_compare a c <> Gt.
Proof.
  induction a as [|x a IH]; intros [|y b] [|z c] Hab Hbc; simpl in *; try done.
  destruct (Z.compare_spec x y), (Z.compare_spec y z); try done; subst.
  - rewrite Z.compare_refl. eauto.
  - by rewrite (proj2 (Z.compare_lt_iff _ _)).
  - by rewrite (proj2 (Z.compare_lt_iff _ _)).
  - by rewrite (proj2 (Z.compare_lt_iff x z)) by lia.
Qed.

Global Instance void_le_total : Total void_le.
Proof.
  intros a b. unfold void_le. rewrite (void_compare_antisym a b).
  destruct (void_compare a b); simpl; [left|left|right]; done.
Qed.

Global Instance void_le_trans : Transitive void_le.
Proof. intros a b c. apply void_compare_trans. Qed.

Global Instance void_le_antisymm : AntiSymm (=) void_le.
Proof.
  intros a b Hab Hba. unfold void_le in *.
  rewrite (void_compare_antisym a b) in Hba.
  apply void_compare_eq. destruct (void_compare a b); done.
Qed.

(** ** Items and their bytes *)

Lemma length_to_bytes (s : nat) : forall z, length (to_bytes s z) = s.
Proof. induction s as [|s IH]; intros z; simpl; auto. Qed.

Lemma of_bytes_unsigned_to_bytes (s : nat) : forall z,
  of_bytes_unsigned (to_bytes s z) = z mod 2 ^ (8 * Z.of_nat s).
Proof.
  induction s as [|s IH]; intros z.
  - simpl. by rewrite Z.mod_1_r.
  - cbn [to_bytes of_bytes_unsigned]. rewrite IH.
    replace (8 * Z.of_nat (S s)) with (8 + 8 * Z.of_nat s) by lia.
    rewrite Z.pow_add_r by lia. change (2 ^ 8) with 256.
    rewrite Z.rem_mul_r by lia. lia.
Qed.

(** Reading back the bytes of an item of an integer dtype gives the item. *)
Lemma of_bytes_to_bytes (d : dtype) (z : Z) :
  issubdtype_integer d = true -> (0 < itemsize d)%nat -> in_range d z ->
  of_bytes d (to_bytes (itemsize d) z) = z.
Proof.
  intros Hd Hs Hz. unfold of_bytes. rewrite of_bytes_unsigned_to_bytes.
  destruct d as [s|s| |s|]; try done; simpl in *.
  - assert (Hpow : 2 ^ (8 * Z.of_nat s) = 2 * 2 ^ (8 * Z.of_nat s - 1)).
    { rewrite <- Z.pow_succ_r by lia. f_equal. lia. }
    assert (0 < 2 ^ (8 * Z.of_nat s - 1)) by (apply Z.pow_pos_nonneg; lia).
    destruct (Z.leb_spec (2 ^ (8 * Z.of_nat s - 1)) (z mod 2 ^ (8 * Z.of_nat s)))
      as [Hge|Hlt].
    + destruct (Z.neg_nonneg_cases z) as [Hneg|Hpos].
      * rewrite <- (Z.mod_unique_pos z (2 ^ (8 * Z.of_nat s)) (-1)
                    (z + 2 ^ (8 * Z.of_nat s))); lia.
      * rewrite Z.mod_small in Hge by lia. lia.
    + destruct (Z.neg_nonneg_cases z) as [Hneg|Hpos].
      * rewrite <- (Z.mod_unique_pos z (2 ^ (8 * Z.of_nat s)) (-1)
                    (z + 2 ^ (8 * Z.of_nat s))) in Hlt; lia.
      * rewrite Z.mod_small by lia. done.
  - by rewrite Z.mod_small.
Qed.

Lemma length_row_blob d r :
  length (row_blob d r) = (length r * itemsize d)%nat.
Proof.
  unfold row_blob. induction r as [|z r IH]; [done|].
  rewrite bind_cons, length_app, length_to_bytes, IH. simpl. lia.
Qed.

Lemma reshape_row_blob d r :
  reshape (replicate (length r) (itemsize d)) (row_blob d r)
  = to_bytes (itemsize d) <$> r.
Proof.
  unfold row_blob. induction r as [|z r IH]; [done|].
  rewrite bind_cons. cbn [length replicate reshape fmap list_fmap].
  rewrite take_app_length' by (by rewrite length_to_bytes).
  rewrite drop_app_length' by (by rewrite length_to_bytes).
  by rewrite IH.
Qed.

Lemma blob_items_row_blob (d : dtype) (r : list Z) :
  issubdtype_integer d = true -> (0 < itemsize d)%nat ->
  Forall (in_range d) r ->
  blob_items d (row_blob d r) = r.
Proof.
  intros Hd Hs Hr. unfold blob_items.
  rewrite length_row_blob, Nat.div_mul by lia.
  rewrite reshape_row_blob, <- list_fmap_compose.
  induction Hr as [|z r Hz Hr IH]; [done|].
  cbn [fmap list_fmap]. rewrite IH. f_equal. simpl.
  by apply of_bytes_to_bytes.
Qed.

(** ** Rows of a 2-dimensional array *)

Lemma reshape_lengths {A} (n m : nat) : forall data : list A,
  length data = (n * m)%nat ->
  Forall (fun r => length r = m) (reshape (replicate n m) data).
Proof.
  induction n as [|n IH]; intros data Hlen; simpl; constructor.
  - rewrite length_take. lia.
  - apply IH. rewrite length_drop. lia.
Qed.

Lemma reshape_concat {A} (m : nat) (rs : list (list A)) :
  Forall (fun r => length r = m) rs ->
  reshape (replicate (length rs) m) (concat rs) = rs.
Proof.
  induction 1 as [|r rs Hr Hrs IH]; [done|]. simpl.
  rewrite take_app_length', drop_app_length' by done. by rewrite IH.
Qed.

Lemma bind_concat {A B} (f : A -> list B) (l : list A) :
  l ≫= f = concat (f <$> l).
Proof. induction l as [|x l IH]; [done|]. by rewrite bind_cons, fmap_cons, IH. Qed.

Lemma rows_shape (arr : ndarray) (n m : nat) :
  wf arr -> shape arr = [n; m] ->
  length (rows arr) = n /\
  Forall (fun r => length r = m /\ Forall (in_range (dtype_of arr)) r) (rows arr).
Proof.
  intros [Hsize Hrange _] Hshape. unfold rows, shape_at. rewrite Hshape in *.
  simpl in *. split.
  - by rewrite length_reshape, length_replicate.
  - apply Forall_and. split.
    + apply reshape_lengths. lia.
    + by apply Forall_reshape.
Qed.

(** ** [fast_2d_int_unique] *)

Lemma fast_2d_int_unique_empty (arr : ndarray) (m : nat) :
  issubdtype_integer (dtype_of arr) = true ->
  shape arr = [0%nat; m] -> m = 0%nat -> unique_rows_post arr.
Proof.
  intros Hd Hshape ->. unfold unique_rows_post, fast_2d_int_unique.
  unfold ndim, shape_at, view_void. rewrite Hd, Hshape. simpl.
  rewrite Nat.mul_0_r. simpl. eexists _, _. split; [reflexivity|]. split.
  - intros i r. unfold rows, shape_at. rewrite Hshape. done.
  - unfold rows, shape_at. simpl. constructor.
Qed.

Lemma fast_2d_int_unique_columns (arr : ndarray) (n m : nat) :
  wf arr -> issubdtype_integer (dtype_of arr) = true ->
  shape arr = [n; m] -> (0 < m)%nat -> unique_rows_post arr.
Proof.
  intros Hwf Hd Hshape Hm.
  destruct (rows_shape arr n m Hwf Hshape) as [Hn Hrows].
  pose proof (wf_itemsize _ Hwf) as Hs.
  unfold unique_rows_post, fast_2d_int_unique.
  unfold ndim. rewrite Hd, Hshape. cbn [negb length Nat.eqb].
  unfold view_void, shape_at. rewrite Hshape. cbn [nth].
  destruct (Nat.eqb_spec (itemsize (dtype_of arr) * m) 0) as [Hz|_]; [lia|].
  set (d := dtype_of arr) in *.
  set (consolidated := row_blob d <$> rows arr).
  pose proof (unique_inverse_rebuilds void_le consolidated) as Hreb.
  pose proof (unique_inverse_subset void_le consolidated) as Hsub.
  pose proof (unique_inverse_NoDup void_le consolidated) as Hnd.
  destruct (unique_inverse void_le consolidated) as [keys inv].
  cbn [fst snd] in *.
  eexists _, _. split; [reflexivity|].
  (* every unique blob is the blob of a row *)
  assert (Hkeys : Forall (fun k => exists r, k = row_blob d r /\ length r = m /\
                                     Forall (in_range d) r) keys).
  { apply Forall_forall. intros k Hk. apply Hsub in Hk.
    apply list_elem_of_fmap in Hk as (r & -> & Hr).
    rewrite Forall_forall in Hrows. destruct (Hrows r Hr). eauto. }
  assert (Hunq : rows {| dtype_of := d; shape := [length keys; m];
                         data := view_items d keys |}
                 = blob_items d <$> keys).
  { unfold rows, shape_at, view_items. cbn [shape nth data].
    rewrite bind_concat.
    rewrite <- (length_fmap (blob_items d) keys). apply reshape_concat.
    apply Forall_fmap. eapply Forall_impl; [exact Hkeys|].
    intros k (r & -> & Hlen & Hr). simpl.
    by rewrite blob_items_row_blob. }
  unfold rebuilds. rewrite Hunq. split.
  - intros i r Hi.
    destruct (Hreb i (row_blob d r)) as (c & Hc & Hk).
    { unfold consolidated. by rewrite list_lookup_fmap, Hi. }
    exists c. split; [done|]. rewrite list_lookup_fmap, Hk. simpl.
    f_equal. apply blob_items_row_blob; try done.
    apply list_elem_of_lookup_2 in Hi. rewrite Forall_forall in Hrows.
    by destruct (Hrows r Hi).
  - apply NoDup_fmap_2_strong; [|done].
    rewrite Forall_forall in Hkeys.
    intros k1 k2 (r1 & -> & _ & Hr1)%Hkeys (r2 & -> & _ & Hr2)%Hkeys Heq.
    rewrite !blob_items_row_blob in Heq by done. by subst.
Qed.

(** Where the rows have a blob.  For every well-formed 2-dimensional integer
    matrix that has at least one column or no row, [fast_2d_int_unique]
    returns [(unq, inv)] such that [unq[inv[i]]] is row [i] of the matrix
    for every row index [i], and no two rows of [unq] are equal. *)
Lemma fast_2d_int_unique_rebuilds_rows (arr : ndarray) (n m : nat) :
  wf arr ->
  issubdtype_integer (dtype_of arr) = true ->
  shape arr = [n; m] ->
  (0 < m \/ n = 0)%nat ->
  unique_rows_post arr.
Proof.
  intros Hwf Hd Hshape Hnm.
  destruct (Nat.eq_dec m 0%nat) as [Hm|Hm].
  - destruct Hnm as [Hpos|Hn]; [lia|]. subst n.
    by apply (fast_2d_int_unique_empty arr m).
  - apply (fast_2d_int_unique_columns arr n m); auto with lia.
Qed.

Lemma example_pairs_wf : wf example_pairs.
Proof.
  constructor; simpl; [reflexivity| |lia].
  repeat constructor; simpl; lia.
Defined.

Lemma fast_2d_int_unique_rebuilds_rows_witness :
  wf example_pairs /\
  issubdtype_integer (dtype_of example_pairs) = true /\
  shape example_pairs = [4; 2]%nat /\
  unique_rows_post example_pairs.
Proof.
  split; [exact example_pairs_wf|]. split; [reflexivity|].
  split; [reflexivity|].
  apply (fast_2d_int_unique_rebuilds_rows example_pairs 4 2).
  - exact example_pairs_wf.
  - reflexivity.
  - reflexivity.
  - left. lia.
Defined.

(** C6 fails on the code.  On [np.zeros((1, 0), dtype=np.int64)], a
    well-formed 2-dimensional integer matrix with a row and no column,
    [fast_2d_int_unique] raises nothing and returns no unique row and no
    inverse index: the void view of rows of 0 bytes has no item.  Row 0 has
    no inverse index to be rebuilt from, where [np.unique(arr, axis=0,
    return_inverse=True)], which the docstring gives as the equivalent,
    returns the row and the inverse index 0. *)
Theorem fast_2d_int_unique_no_columns :
  wf no_column_matrix /\
  issubdtype_integer (dtype_of no_column_matrix) = true /\
  ndim no_column_matrix = 2%nat /\
  fast_2d_int_unique no_column_matrix
    = Ok (mk_ndarray (int_ 8) [0; 0]%nat [], []) /\
  ~ unique_rows_post no_column_matrix.
Proof.
  split; [|split; [|split; [|split]]]; try reflexivity.
  - constructor; simpl; [reflexivity|constructor|lia].
  - intros (unq & inv & Hrun & Hreb & _).
    assert (Hinv : inv = []) by (vm_compute in Hrun; congruence).
    destruct (Hreb 0%nat [] eq_refl) as (j & Hj & _). by subst inv.
Qed.

(** ** Argument checks *)

Lemma csr_matrix_raises (capacity : Z) (row col : list Z) (e : exn) :
  csr_matrix capacity row col = Raise e ->
  e = ValueError "cannot infer dimensions from zero sized index arrays" \/
  construction_error e \/
  e = OverflowError "Python int too large to convert to C long" \/
  e = MemoryError "Unable to allocate the array".
Proof.
  unfold csr_matrix, construction_error.
  repeat case_match; intros; simplify_eq; auto 6.
Qed.

Lemma unique_not_integer (arr : ndarray) :
  issubdtype_integer (dtype_of arr) = false ->
  fast_2d_int_unique arr = Raise (TypeError "Only integer array is allowed").
Proof. intros Hd. unfold fast_2d_int_unique. by rewrite Hd. Qed.

Lemma unique_not_2d (arr : ndarray) :
  issubdtype_integer (dtype_of arr) = true -> ndim arr <> 2%nat ->
  fast_2d_int_unique arr = Raise (ValueError "Only 2d array is allowed").
Proof.
  intros Hd Hn. unfold fast_2d_int_unique. rewrite Hd. simpl.
  by destruct (Nat.eqb_spec (ndim arr) 2%nat).
Qed.

Lemma unique_2d_returns (arr : ndarray) :
  issubdtype_integer (dtype_of arr) = true -> ndim arr = 2%nat ->
  returns (fast_2d_int_unique arr).
Proof.
  intros Hd Hn. unfold fast_2d_int_unique, returns. rewrite Hd, Hn.
  cbn [negb Nat.eqb].
  match goal with
  | |- context [unique_inverse ?le ?ar] => destruct (unique_inverse le ar)
  end.
  eauto.
Qed.

Lemma pairs_not_integer (capacity : Z) (arr : ndarray) :
  issubdtype_integer (dtype_of arr) = false ->
  fast_2d_2col_int_unique capacity arr = Raise (TypeError "Only integer array is allowed").
Proof. intros Hd. unfold fast_2d_2col_int_unique. by rewrite Hd. Qed.

Lemma pairs_not_2d (capacity : Z) (arr : ndarray) :
  issubdtype_integer (dtype_of arr) = true -> ndim arr <> 2%nat ->
  fast_2d_2col_int_unique capacity arr = Raise (ValueError "Only 2d array is allowed").
Proof.
  intros Hd Hn. unfold fast_2d_2col_int_unique. rewrite Hd. simpl.
  by destruct (Nat.eqb_spec (ndim arr) 2%nat).
Qed.

Lemma pairs_not_2col (capacity : Z) (arr : ndarray) :
  issubdtype_integer (dtype_of arr) = true -> ndim arr = 2%nat ->
  shape_at arr 1 <> 2%nat ->
  fast_2d_2col_int_unique capacity arr = Raise (ValueError "Array must have 2 columns").
Proof.
  intros Hd Hn Hm. unfold fast_2d_2col_int_unique. rewrite Hd, Hn. simpl.
  by destruct (Nat.eqb_spec (shape_at arr 1) 2%nat).
Qed.

Lemma pairs_no_rows (capacity : Z) (arr : ndarray) :
  issubdtype_integer (dtype_of arr) = true -> ndim arr = 2%nat ->
  shape_at arr 1 = 2%nat -> shape_at arr 0 = 0%nat ->
  fast_2d_2col_int_unique capacity arr = Ok arr.
Proof.
  intros Hd Hn Hm Hz. unfold fast_2d_2col_int_unique.
  by rewrite Hd, Hn, Hm, Hz.
Qed.

(** Past its own checks, [fast_2d_2col_int_unique] is the sparse
    construction followed by the read-back. *)
Lemma pairs_checked (capacity : Z) (arr : ndarray) :
  issubdtype_integer (dtype_of arr) = true -> ndim arr = 2%nat ->
  shape_at arr 1 = 2%nat -> shape_at arr 0 <> 0%nat ->
  fast_2d_2col_int_unique capacity arr =
    csr ← csr_matrix capacity (column 0 arr) (column 1 arr);
    Ok (of_rows (index_dtype csr) 2
          (zip_with (fun r c => [r; c]) (tocoo csr).1 (tocoo csr).2)).
Proof.
  intros Hd Hn Hm Hz. unfold fast_2d_2col_int_unique.
  rewrite Hd, Hn, Hm. simpl.
  by destruct (Nat.eqb_spec (shape_at arr 0) 0%nat).
Qed.

Lemma pairs_2col_raises (capacity : Z) (arr : ndarray) (e : exn) :
  issubdtype_integer (dtype_of arr) = true -> ndim arr = 2%nat ->
  shape_at arr 1 = 2%nat ->
  fast_2d_2col_int_unique capacity arr = Raise e ->
  ~ type_error e /\ ~ shape_error e.
Proof.
  intros Hd Hn Hm He.
  destruct (Nat.eq_dec (shape_at arr 0) 0%nat) as [Hz|Hz].
  { by rewrite pairs_no_rows in He. }
  rewrite pairs_checked in He by done.
  destruct (csr_matrix _ _) as [c|e'] eqn:Hcsr; simpl in He; [done|].
  injection He as ->. apply csr_matrix_raises in Hcsr.
  unfold construction_error in Hcsr. unfold type_error, shape_error.
  split; [intros ?|intros [?|?]]; destruct_or!; congruence.
Qed.

(** C9.  Both functions raise their type error exactly when the dtype is not
    an integer dtype; on integer input they raise a shape error exactly when
    the array is not 2-dimensional or, for [fast_2d_2col_int_unique], has
    not exactly 2 columns.  The conditions read the dtype and the shape
    only, so the checks come before any computation on the items.
    [fast_2d_2col_int_unique] returns an integer array of no row and 2
    columns as it is. *)
Theorem argument_checks (capacity : Z) (arr : ndarray) :
  (raises_with type_error (fast_2d_int_unique arr)
     <-> issubdtype_integer (dtype_of arr) = false) /\
  (raises_with type_error (fast_2d_2col_int_unique capacity arr)
     <-> issubdtype_integer (dtype_of arr) = false) /\
  (issubdtype_integer (dtype_of arr) = true ->
     (raises_with shape_error (fast_2d_int_unique arr)
        <-> ndim arr <> 2%nat) /\
     (raises_with shape_error (fast_2d_2col_int_unique capacity arr)
        <-> ndim arr <> 2%nat \/ shape_at arr 1 <> 2%nat)) /\
  (issubdtype_integer (dtype_of arr) = true ->
     ndim arr = 2%nat -> shape_at arr 1 = 2%nat -> shape_at arr 0 = 0%nat ->
     fast_2d_2col_int_unique capacity arr = Ok arr).
Proof.
  assert (Hshape1 : shape_error (ValueError "Only 2d array is allowed"))
    by (by left).
  assert (Hshape2 : shape_error (ValueError "Array must have 2 columns"))
    by (by right).
  assert (Hnot : forall e, type_error e -> ~ shape_error e).
  { unfold type_error, shape_error. intros e -> [?|?]; congruence. }
  destruct (issubdtype_integer (dtype_of arr)) eqn:Hd.
  - destruct (Nat.eq_dec (ndim arr) 2%nat) as [Hn|Hn].
    + destruct (unique_2d_returns arr Hd Hn) as [v Hv].
      split; [|split; [|split]].
      * split; [|done]. intros (e & He & _). congruence.
      * split; [|done]. intros (e & He & Hty).
        destruct (Nat.eq_dec (shape_at arr 1) 2%nat) as [Hm|Hm].
        -- by destruct (pairs_2col_raises capacity arr e Hd Hn Hm He).
        -- rewrite pairs_not_2col in He by done. injection He as <-.
           by destruct (Hnot _ Hty).
      * intros _. split.
        -- split; [|done]. intros (e & He & _). congruence.
        -- split.
           ++ intros (e & He & Hsh).
              destruct (Nat.eq_dec (shape_at arr 1) 2%nat) as [Hm|Hm]; [|auto].
              by destruct (pairs_2col_raises capacity arr e Hd Hn Hm He).
           ++ intros [?|Hm]; [done|]. eexists. split; [|exact Hshape2].
              by apply pairs_not_2col.
      * intros _ _. by apply pairs_no_rows.
    + split; [|split; [|split]].
      * split; [|done]. intros (e & He & Hty).
        rewrite unique_not_2d in He by done. injection He as <-.
        by destruct (Hnot _ Hty).
      * split; [|done]. intros (e & He & Hty).
        rewrite pairs_not_2d in He by done. injection He as <-.
        by destruct (Hnot _ Hty).
      * intros _. split; (split; [auto|]); intros _; eexists;
          (split; [|exact Hshape1]).
        -- by apply unique_not_2d.
        -- by apply pairs_not_2d.
      * done.
  - split; [|split; [|split]]; try done.
    + split; [done|]. intros _. eexists. split; [by apply unique_not_integer|].
      reflexivity.
    + split; [done|]. intros _. eexists. split; [by apply pairs_not_integer|].
      reflexivity.
Qed.

Lemma argument_checks_witness :
  issubdtype_integer (dtype_of no_row_matrix) = true /\
  ndim no_row_matrix = 2%nat /\
  shape_at no_row_matrix 1 = 2%nat /\
  shape_at no_row_matrix 0 = 0%nat /\
  ~ raises_with shape_error (fast_2d_int_unique no_row_matrix) /\
  ~ raises_with shape_error (fast_2d_2col_int_unique example_capacity no_row_matrix) /\
  fast_2d_2col_int_unique example_capacity no_row_matrix = Ok no_row_matrix.
Proof.
  destruct (argument_checks example_capacity no_row_matrix) as (_ & _ & Hshape & Hrows).
  destruct (Hshape eq_refl) as [H1 H2].
  split; [reflexivity|]. split; [reflexivity|].
  split; [reflexivity|]. split; [reflexivity|].
  split; [|split].
  - intros H. apply H1 in H. by apply H.
  - intros H. apply H2 in H. destruct H as [H|H]; by apply H.
  - apply Hrows; reflexivity.
Defined.

(** ** The sparse construction *)

Lemma foldr_max_ge (init : Z) (l : list Z) :
  init <= foldr Z.max init l /\ Forall (fun x => x <= foldr Z.max init l) l.
Proof.
  induction l as [|y l [IH1 IH2]]; simpl; [split; [lia|constructor]|].
  split; [lia|]. constructor; [lia|].
  eapply Forall_impl; [exact IH2|]. simpl. lia.
Qed.

Lemma foldr_min_le (init : Z) (l : list Z) :
  foldr Z.min init l <= init /\ Forall (fun x => foldr Z.min init l <= x) l.
Proof.
  induction l as [|y l [IH1 IH2]]; simpl; [split; [lia|constructor]|].
  split; [lia|]. constructor; [lia|].
  eapply Forall_impl; [exact IH2|]. simpl. lia.
Qed.

Lemma foldr_min_elem (init : Z) (l : list Z) :
  foldr Z.min init l = init \/ foldr Z.min init l ∈ l.
Proof.
  induction l as [|y l IH]; simpl; [by left|].
  destruct (Z.min_spec y (foldr Z.min init l)) as [[_ ->]|[_ ->]].
  - right. left.
  - destruct IH; [by left|right; by right].
Qed.

Lemma foldr_max_elem (init : Z) (l : list Z) :
  foldr Z.max init l = init \/ foldr Z.max init l ∈ l.
Proof.
  induction l as [|y l IH]; simpl; [by left|].
  destruct (Z.max_spec y (foldr Z.max init l)) as [[_ ->]|[_ ->]].
  - destruct IH; [by left|right; by right].
  - right. left.
Qed.

Lemma np_max_elem (l : list Z) : l <> [] -> np_max l ∈ l.
Proof.
  destruct l as [|x l]; [done|]. intros _. unfold np_max.
  destruct (foldr_max_elem (hd 0 (x :: l)) (x :: l)) as [->|H]; [left|done].
Qed.

Lemma np_max_ge (l : list Z) (x : Z) : x ∈ l -> x <= np_max l.
Proof.
  intros Hx. unfold np_max.
  destruct (foldr_max_ge (hd 0 l) l) as [_ H]. rewrite Forall_forall in H. auto.
Qed.

Lemma np_min_le (l : list Z) (x : Z) : x ∈ l -> np_min l <= x.
Proof.
  intros Hx. unfold np_min.
  destruct (foldr_min_le (hd 0 l) l) as [_ H]. rewrite Forall_forall in H. auto.
Qed.

Lemma np_min_elem (l : list Z) : l <> [] -> np_min l ∈ l.
Proof.
  destruct l as [|x l]; [done|]. intros _. unfold np_min.
  destruct (foldr_min_elem (hd 0 (x :: l)) (x :: l)) as [->|H]; [left|done].
Qed.

(** Merging the runs of a sorted list leaves its elements, in strictly
    increasing order. *)
Lemma elem_of_merge_runs (l : list Z) : forall prev x,
  x ∈ prev :: merge_runs prev l <-> x ∈ prev :: l.
Proof.
  induction l as [|y l IH]; intros prev x; simpl; [done|].
  destruct (Z.eqb_spec y prev) as [->|Hne].
  - rewrite IH. rewrite !elem_of_cons. tauto.
  - rewrite (elem_of_cons (y :: merge_runs y l)), IH. rewrite !elem_of_cons. tauto.
Qed.

Lemma elem_of_sum_duplicates (l : list Z) (x : Z) :
  x ∈ sum_duplicates l <-> x ∈ l.
Proof. destruct l as [|y l]; [done|]. apply elem_of_merge_runs. Qed.

Lemma merge_runs_sorted (l : list Z) : forall prev,
  StronglySorted Z.le (prev :: l) ->
  StronglySorted Z.lt (prev :: merge_runs prev l).
Proof.
  induction l as [|y l IH]; intros prev Hs; simpl.
  { repeat constructor. }
  apply StronglySorted_cons in Hs as [Hprev Hs].
  apply Forall_cons in Hprev as [Hy Hprev].
  destruct (Z.eqb_spec y prev) as [->|Hne].
  - by apply IH.
  - specialize (IH y Hs). apply StronglySorted_cons. split; [|done].
    apply Forall_forall. intros x Hx. rewrite elem_of_merge_runs in Hx.
    apply elem_of_cons in Hx as [->|Hx]; [lia|].
    apply StronglySorted_cons in Hs as [Hyl _].
    rewrite Forall_forall in Hyl. specialize (Hyl x Hx). lia.
Qed.

Lemma sum_duplicates_sorted (l : list Z) :
  StronglySorted Z.le l -> StronglySorted Z.lt (sum_duplicates l).
Proof. destruct l as [|y l]; [constructor|]. apply merge_runs_sorted. Qed.

Lemma elem_of_canonical_row (row col : list Z) (i j : Z) :
  j ∈ canonical_row row col i <-> (i, j) ∈ zip row col.
Proof.
  unfold canonical_row, cols_of_row.
  rewrite elem_of_sum_duplicates, merge_sort_Permutation, list_elem_of_fmap.
  split.
  - intros ([i' j'] & -> & [Hi Hin]%list_elem_of_filter). simpl in *. by subst.
  - intros Hin. exists (i, j). split; [done|]. by apply list_elem_of_filter.
Qed.

Lemma canonical_row_sorted (row col : list Z) (i : Z) :
  StronglySorted Z.lt (canonical_row row col i).
Proof.
  apply sum_duplicates_sorted, StronglySorted_merge_sort; apply _.
Qed.

Lemma elem_of_coords (row col ks : list Z) (i j : Z) :
  (i, j) ∈ coords row col ks <-> i ∈ ks /\ (i, j) ∈ zip row col.
Proof.
  unfold coords. induction ks as [|k ks IH]; simpl.
  { rewrite !elem_of_nil. tauto. }
  rewrite elem_of_app, IH, list_elem_of_fmap, elem_of_cons.
  setoid_rewrite elem_of_canonical_row. split.
  - intros [(j' & [= -> ->] & Hin)|[? ?]]; auto.
  - intros [[->|Hi] Hin]; [left; eauto|right; auto].
Qed.

Lemma coords_sorted (row col ks : list Z) :
  StronglySorted Z.lt ks -> StronglySorted pair_lt (coords row col ks).
Proof.
  unfold coords. induction 1 as [|k ks Hs IH Hk]; simpl; [constructor|].
  apply StronglySorted_app. split; [|split; [|done]].
  - intros [i1 j1] [i2 j2] (j & [= -> ->] & Hj)%list_elem_of_fmap
      Hin%elem_of_coords.
    destruct Hin as [Hi _]. rewrite Forall_forall in Hk. left. simpl. auto.
  - apply (StronglySorted_fmap _ Z.lt); [|apply canonical_row_sorted].
    intros j1 j2 Hlt. right. by simpl.
Qed.

Lemma seqZ_sorted (m n : Z) : StronglySorted Z.lt (seqZ m n).
Proof.
  destruct (Z.le_gt_cases n 0) as [Hn|Hn].
  { rewrite seqZ_nil by done. constructor. }
  rewrite <- (Z2Nat.id n) by lia. generalize (Z.to_nat n). clear. intros k.
  revert m. induction k as [|k IH]; intros m.
  { rewrite seqZ_nil by done. constructor. }
  rewrite seqZ_cons by lia. constructor.
  - replace (Z.pred (Z.of_nat (S k))) with (Z.of_nat k) by lia. apply IH.
  - apply Forall_forall. intros x Hx%elem_of_seqZ. lia.
Qed.

Lemma tocoo_coords (row col : list Z) (M N : Z) :
  let c := {| csr_shape := (M, N);
              csr_rows := canonical_row row col <$> seqZ 0 M |} in
  zip (tocoo c).1 (tocoo c).2 = coords row col (seqZ 0 M).
Proof.
  simpl. unfold tocoo, coords. cbn [csr_shape csr_rows fst snd].
  rewrite zip_fst_snd. f_equal.
  generalize (seqZ 0 M). intros ks.
  induction ks as [|i ks IH]; [done|]. simpl. f_equal. apply IH.
Qed.

(** ** Pairs: the rows of a 2-column array *)

Lemma row_of_pair_of (r : list Z) : length r = 2%nat -> row_of (pair_of r) = r.
Proof. by destruct r as [|a [|b [|c r]]]. Qed.

Lemma concat_reshape {A} (n m : nat) : forall data : list A,
  length data = (n * m)%nat -> concat (reshape (replicate n m) data) = data.
Proof.
  induction n as [|n IH]; intros data Hlen; simpl.
  - by destruct data.
  - rewrite IH, take_drop; [done|]. rewrite length_drop. lia.
Qed.

Lemma zip_columns (arr : ndarray) :
  zip (column 0 arr) (column 1 arr) = pair_of <$> rows arr.
Proof.
  unfold column. induction (rows arr) as [|r rs IH]; [done|].
  simpl. f_equal. apply IH.
Qed.

Lemma zip_with_row_of (l k : list Z) :
  zip_with (fun r c => [r; c]) l k = row_of <$> zip l k.
Proof.
  revert k. induction l as [|x l IH]; intros [|y k]; simpl; try done.
  f_equal. apply IH.
Qed.

Lemma rows_of_rows (d : dtype) (m : nat) (rs : list (list Z)) :
  Forall (fun r => length r = m) rs -> rows (of_rows d m rs) = rs.
Proof. intros Hrs. unfold rows, of_rows, shape_at. simpl. by apply reshape_concat. Qed.

Lemma elem_of_rows_data (arr : ndarray) (n m : nat) (r : list Z) (z : Z) :
  wf arr -> shape arr = [n; m] -> r ∈ rows arr -> z ∈ r -> z ∈ data arr.
Proof.
  intros [Hsize _ _] Hshape Hr Hz. rewrite Hshape in Hsize. simpl in Hsize.
  rewrite <- (concat_reshape n m (data arr)) by lia.
  apply list_elem_of_In, in_concat. exists r.
  split; apply list_elem_of_In; [|done].
  revert Hr. unfold rows, shape_at. by rewrite Hshape.
Qed.

Lemma elem_of_data_rows (arr : ndarray) (n m : nat) (z : Z) :
  wf arr -> shape arr = [n; m] -> z ∈ data arr ->
  exists r, r ∈ rows arr /\ z ∈ r.
Proof.
  intros [Hsize _ _] Hshape Hz. rewrite Hshape in Hsize. simpl in Hsize.
  rewrite <- (concat_reshape n m (data arr)) in Hz by lia.
  apply list_elem_of_In, in_concat in Hz as (r & Hr & Hz).
  exists r. split; apply list_elem_of_In; [|done].
  revert Hr. unfold rows, shape_at. by rewrite Hshape.
Qed.

Lemma length_column (arr : ndarray) (n m j : nat) :
  wf arr -> shape arr = [n; m] -> length (column j arr) = n.
Proof.
  intros Hwf Hshape. unfold column. rewrite length_fmap.
  by destruct (rows_shape arr n m Hwf Hshape).
Qed.

(** What holds of every item holds of the items of a column. *)
Lemma Forall_column (P : Z -> Prop) (arr : ndarray) (n j : nat) :
  wf arr -> shape arr = [n; 2%nat] -> (j < 2)%nat ->
  Forall P (data arr) -> Forall P (column j arr).
Proof.
  intros Hwf Hshape Hj HP.
  destruct (rows_shape arr n 2 Hwf Hshape) as [_ Hrows].
  rewrite Forall_forall in Hrows. rewrite Forall_forall in HP.
  apply Forall_forall. intros z Hz. unfold column in Hz.
  apply list_elem_of_fmap in Hz as (r & -> & Hr).
  destruct (Hrows r Hr) as [Hlen _].
  apply HP. apply (elem_of_rows_data arr n 2 r); try done.
  destruct r as [|a [|b [|c r]]]; try done.
  destruct j as [|[|j]]; simpl; [left|right; left|lia].
Qed.

(** ** [fast_2d_2col_int_unique] *)

Lemma pair_lt_irrefl_sorted (l : list (Z * Z)) :
  StronglySorted pair_lt l -> NoDup l.
Proof.
  induction 1 as [|p l Hs IH Hp]; constructor; [|done].
  intros Hin. rewrite Forall_forall in Hp. specialize (Hp p Hin).
  unfold pair_lt in Hp. lia.
Qed.

(** Non-negative indices inside the bounds give a matrix. *)
Lemma csr_matrix_nonneg (capacity : Z) (row col : list Z) :
  row <> [] -> col <> [] ->
  Forall (fun z => 0 <= z) row -> Forall (fun z => 0 <= z) col ->
  Forall (fun z => z < int64_max) row -> Forall (fun z => z < int64_max) col ->
  Forall (fun i => i + 2 <= capacity) row ->
  csr_matrix capacity row col =
    Ok {| csr_shape := (np_max row + 1, np_max col + 1);
          csr_rows := canonical_row row col <$> seqZ 0 (np_max row + 1) |}.
Proof.
  intros Hr Hc Hrow Hcol Hrow64 Hcol64 Hcap. unfold csr_matrix.
  pose proof (np_min_elem row Hr) as Hminr.
  pose proof (np_min_elem col Hc) as Hminc.
  pose proof (np_max_elem row Hr) as Hmaxr.
  pose proof (np_max_elem col Hc) as Hmaxc.
  pose proof (np_max_ge row _ Hminr). pose proof (np_max_ge col _ Hminc).
  rewrite Forall_forall in Hrow; rewrite Forall_forall in Hcol.
  rewrite Forall_forall in Hrow64; rewrite Forall_forall in Hcol64.
  rewrite Forall_forall in Hcap.
  specialize (Hrow _ Hminr). specialize (Hcol _ Hminc).
  specialize (Hrow64 _ Hmaxr). specialize (Hcol64 _ Hmaxc).
  specialize (Hcap _ Hmaxr). simpl in Hrow64, Hcol64, Hcap.
  destruct row as [|r0 row]; [done|]. destruct col as [|c0 col]; [done|].
  cbn [length Nat.eqb orb].
  destruct (Z.ltb_spec (np_max (r0 :: row) + 1) 0); [lia|].
  destruct (Z.ltb_spec (np_max (c0 :: col) + 1) 0); [lia|].
  destruct (Z.ltb_spec (np_min (r0 :: row)) 0); [lia|].
  destruct (Z.ltb_spec (np_min (c0 :: col)) 0); [lia|].
  destruct (Z.ltb_spec int64_max
              (Z.max (np_max (r0 :: row) + 1) (np_max (c0 :: col) + 1)));
    [lia|].
  destruct (Z.ltb_spec capacity (np_max (r0 :: row) + 1 + 1)); [lia|].
  reflexivity.
Qed.

(** C7, as amended.  For every well-formed integer matrix with exactly 2
    columns, no negative entry and every entry inside the coordinate bound
    of the sparse structure (the entries fit 64-bit indices, and the machine
    can allocate [max(col0) + 2] row pointers), [fast_2d_2col_int_unique]
    returns a matrix whose rows are exactly the distinct pairs of the input,
    each once, ascending by column 0 and, within equal column 0, by
    column 1. *)
Theorem fast_2d_2col_int_unique_nonneg
    (capacity : Z) (arr : ndarray) (n : nat) :
  wf arr ->
  issubdtype_integer (dtype_of arr) = true ->
  shape arr = [n; 2%nat] ->
  Forall (fun z => 0 <= z) (data arr) ->
  coordinate_bound capacity arr ->
  unique_pairs_post capacity arr.
Proof.
  intros Hwf Hd Hshape Hpos [Hb64 Hbcap].
  destruct (rows_shape arr n 2 Hwf Hshape) as [Hn Hrows].
  assert (Hndim : ndim arr = 2%nat) by (unfold ndim; by rewrite Hshape).
  assert (Hm : shape_at arr 1 = 2%nat) by (unfold shape_at; by rewrite Hshape).
  assert (Hn0 : shape_at arr 0 = n) by (unfold shape_at; by rewrite Hshape).
  unfold unique_pairs_post.
  destruct (Nat.eq_dec n 0%nat) as [->|Hnz].
  { exists arr. split; [by apply pairs_no_rows|].
    assert (rows arr = []) as -> by (by apply nil_length_inv).
    repeat split; try done; constructor. }
  rewrite pairs_checked by (try done; lia).
  set (row := column 0 arr). set (col := column 1 arr).
  assert (Hzip : zip row col = pair_of <$> rows arr) by apply zip_columns.
  assert (Hrow : forall i j, (i, j) ∈ zip row col -> 0 <= i).
  { intros i j Hin. rewrite Hzip in Hin.
    apply list_elem_of_fmap in Hin as (r & [= -> ->] & Hr).
    rewrite Forall_forall in Hrows; rewrite Forall_forall in Hpos. destruct (Hrows r Hr) as [Hlen _].
    apply Hpos. apply (elem_of_rows_data arr n 2 r); try done.
    destruct r as [|a [|b r]]; try done. left. }
  rewrite csr_matrix_nonneg.
  - cbn [mbind res_bind]. eexists. split; [reflexivity|].
    rewrite rows_of_rows.
    2:{ rewrite zip_with_row_of. apply Forall_fmap, Forall_true. done. }
    rewrite zip_with_row_of.
    rewrite (tocoo_coords row col (np_max row + 1) (np_max col + 1)).
    set (cs := coords row col (seqZ 0 (np_max row + 1))).
    assert (Hsorted : StronglySorted pair_lt cs)
      by apply coords_sorted, seqZ_sorted.
    split; [|split].
    + intros r. rewrite list_elem_of_fmap. split.
      * intros ([i j] & -> & [_ Hin]%elem_of_coords).
        rewrite Hzip in Hin. apply list_elem_of_fmap in Hin as (r & Hp & Hr).
        rewrite Hp. rewrite row_of_pair_of; [done|].
        rewrite Forall_forall in Hrows. by destruct (Hrows r Hr).
      * intros Hr. exists (pair_of r). split.
        { symmetry. apply row_of_pair_of.
          rewrite Forall_forall in Hrows. by destruct (Hrows r Hr). }
        assert (Hin : pair_of r ∈ zip row col).
        { rewrite Hzip. by apply list_elem_of_fmap_2. }
        destruct (pair_of r) as [i j] eqn:Hp.
        apply elem_of_coords. split; [|done].
        apply elem_of_seqZ. split; [by apply (Hrow i j)|].
        apply elem_of_zip_l in Hin. apply np_max_ge in Hin. lia.
    + apply NoDup_fmap_2_strong; [|by apply pair_lt_irrefl_sorted].
      intros [] [] _ _ [= -> ->]. done.
    + apply (StronglySorted_fmap _ pair_lt); [|done].
      intros [a b] [c d]. unfold pair_lt, row_of, row_le. simpl. lia.
  - intros Hnil. apply (f_equal length) in Hnil.
    unfold row in Hnil. rewrite (length_column arr n 2) in Hnil by done.
    simpl in Hnil. lia.
  - intros Hnil. apply (f_equal length) in Hnil.
    unfold col in Hnil. rewrite (length_column arr n 2) in Hnil by done.
    simpl in Hnil. lia.
  - apply Forall_forall. intros i Hi.
    apply list_elem_of_lookup in Hi as [k Hk].
    destruct (lookup_lt_is_Some_2 col k) as [j Hj].
    { apply lookup_lt_Some in Hk. unfold row, col in *.
      rewrite (length_column arr n 2) in * by done. done. }
    apply (Hrow i j). apply list_elem_of_lookup. exists k.
    by apply lookup_zip_Some.
  - apply Forall_forall. intros j Hj. unfold col, column in Hj.
    apply list_elem_of_fmap in Hj as (r & -> & Hr).
    rewrite Forall_forall in Hrows; rewrite Forall_forall in Hpos. destruct (Hrows r Hr) as [Hlen _].
    apply Hpos. apply (elem_of_rows_data arr n 2 r); try done.
    destruct r as [|a [|b r]]; try done. right. left.
  - apply (Forall_column _ arr n 0); auto.
  - apply (Forall_column _ arr n 1); auto.
  - exact Hbcap.
Qed.

Lemma example_pairs_bound : coordinate_bound example_capacity example_pairs.
Proof. split; repeat constructor; vm_compute; congruence. Defined.

Lemma fast_2d_2col_int_unique_nonneg_witness :
  wf example_pairs /\
  issubdtype_integer (dtype_of example_pairs) = true /\
  shape example_pairs = [4; 2]%nat /\
  Forall (fun z => 0 <= z) (data example_pairs) /\
  coordinate_bound example_capacity example_pairs /\
  unique_pairs_post example_capacity example_pairs.
Proof.
  assert (Hpos : Forall (fun z => 0 <= z) (data example_pairs))
    by (repeat constructor; lia).
  split; [exact example_pairs_wf|]. split; [reflexivity|].
  split; [reflexivity|]. split; [exact Hpos|].
  split; [exact example_pairs_bound|].
  apply (fast_2d_2col_int_unique_nonneg example_capacity example_pairs 4).
  - exact example_pairs_wf.
  - reflexivity.
  - reflexivity.
  - exact Hpos.
  - exact example_pairs_bound.
Defined.

(** The example of the specification. *)
Example fast_2d_2col_int_unique_example :
  fast_2d_2col_int_unique example_capacity example_pairs
  = Ok (mk_ndarray (int_ 4) [3; 2]%nat [1; 1; 2; 0; 2; 1]).
Proof. reflexivity. Qed.

Lemma negative_pair_wf : wf negative_pair.
Proof.
  constructor; simpl; [reflexivity| |lia]. repeat constructor; simpl; lia.
Defined.

(** C7, as stated, fails on a matrix with a negative entry: the sparse
    constructor raises. *)
Lemma fast_2d_2col_int_unique_negative :
  wf negative_pair /\
  issubdtype_integer (dtype_of negative_pair) = true /\
  shape negative_pair = [1; 2]%nat /\
  fast_2d_2col_int_unique example_capacity negative_pair
    = Raise (ValueError "negative row index found") /\
  ~ unique_pairs_post example_capacity negative_pair.
Proof.
  split; [|split; [|split; [|split]]]; try reflexivity.
  - exact negative_pair_wf.
  - intros (res & Hres & _). discriminate Hres.
Qed.

Lemma large_pair_wf : wf large_pair.
Proof.
  constructor; simpl; [reflexivity| |lia]. repeat constructor; simpl; lia.
Defined.

(** It fails as well outside the coordinate bound.  The pair [(0, 2 ** 63)]
    of a [uint64] matrix has no negative entry, but its column index does
    not fit the 64-bit index dtype: whatever the machine can allocate, no
    result comes back. *)
Lemma fast_2d_2col_int_unique_large (capacity : Z) :
  wf large_pair /\
  issubdtype_integer (dtype_of large_pair) = true /\
  shape large_pair = [1; 2]%nat /\
  Forall (fun z => 0 <= z) (data large_pair) /\
  ~ returns (fast_2d_2col_int_unique capacity large_pair) /\
  ~ unique_pairs_post capacity large_pair.
Proof.
  assert (Hrun : fast_2d_2col_int_unique capacity large_pair
    = Raise (OverflowError "Python int too large to convert to C long"))
    by reflexivity.
  split; [exact large_pair_wf|]. split; [reflexivity|].
  split; [reflexivity|]. split; [repeat constructor; lia|].
  split.
  - intros (res & Hres). rewrite Hrun in Hres. discriminate Hres.
  - intros (res & Hres & _). rewrite Hrun in Hres. discriminate Hres.
Qed.

(** Nor does a result come back when the row pointers cannot be allocated:
    a pair [(i, j)] asks for [i + 2] of them. *)
Lemma fast_2d_2col_int_unique_no_memory (capacity i j : Z) (d : dtype) :
  issubdtype_integer d = true ->
  0 <= i < int64_max -> 0 <= j < int64_max -> capacity < i + 2 ->
  ~ returns (fast_2d_2col_int_unique capacity
               (mk_ndarray d [1; 2]%nat [i; j])).
Proof.
  intros Hd Hi Hj Hcap.
  assert (Hrun :
    fast_2d_2col_int_unique capacity (mk_ndarray d [1; 2]%nat [i; j])
    = Raise (MemoryError "Unable to allocate the array")).
  2:{ intros (res & Hres). rewrite Hrun in Hres. discriminate Hres. }
  unfold fast_2d_2col_int_unique, ndim, shape_at.
  cbn [dtype_of shape length nth Nat.eqb negb]. rewrite Hd. cbn [negb].
  unfold csr_matrix, column, rows, shape_at.
  cbn [shape nth data replicate reshape take drop fmap list_fmap length
       Nat.eqb orb np_max np_min hd foldr].
  unfold int64_max in *.
  repeat (case_match; try lia); simplify_eq; try reflexivity;
    repeat match goal with
    | H : (_ || _) = _ |- _ => apply orb_true_iff in H || apply orb_false_iff in H
    | H : (_ <? _) = true |- _ => apply Z.ltb_lt in H
    | H : (_ <? _) = false |- _ => apply Z.ltb_ge in H
    | H : _ \/ _ |- _ => destruct H
    | H : _ /\ _ |- _ => destruct H
    end; lia.
Qed.

(** Inside the coordinate bound the result is a well-formed array: every
    coordinate read back fits the index dtype of the sparse matrix. *)
Lemma fast_2d_2col_int_unique_wf (capacity : Z) (arr : ndarray) (n : nat) :
  wf arr -> issubdtype_integer (dtype_of arr) = true ->
  shape arr = [n; 2%nat] -> Forall (fun z => 0 <= z) (data arr) ->
  coordinate_bound capacity arr ->
  exists res, fast_2d_2col_int_unique capacity arr = Ok res /\ wf res.
Proof.
  intros Hwf Hd Hshape Hpos [Hb64 Hbcap].
  assert (Hndim : ndim arr = 2%nat) by (unfold ndim; by rewrite Hshape).
  assert (Hm : shape_at arr 1 = 2%nat) by (unfold shape_at; by rewrite Hshape).
  assert (Hn0 : shape_at arr 0 = n) by (unfold shape_at; by rewrite Hshape).
  destruct (Nat.eq_dec n 0%nat) as [->|Hnz].
  { exists arr. split; [by apply pairs_no_rows|done]. }
  rewrite pairs_checked by (try done; lia).
  set (row := column 0 arr). set (col := column 1 arr).
  assert (Hlenr : length row = n) by (by apply (length_column arr n 2)).
  assert (Hlenc : length col = n) by (by apply (length_column arr n 2)).
  assert (Hrow0 : Forall (fun z => 0 <= z) row)
    by (apply (Forall_column _ arr n 0); auto).
  assert (Hcol0 : Forall (fun z => 0 <= z) col)
    by (apply (Forall_column _ arr n 1); auto).
  assert (Hrow64 : Forall (fun z => z < int64_max) row)
    by (apply (Forall_column _ arr n 0); auto).
  assert (Hcol64 : Forall (fun z => z < int64_max) col)
    by (apply (Forall_column _ arr n 1); auto).
  rewrite csr_matrix_nonneg; try done.
  2:{ intros Hnil. rewrite Hnil in Hlenr. simpl in Hlenr. lia. }
  2:{ intros Hnil. rewrite Hnil in Hlenc. simpl in Hlenc. lia. }
  cbn [mbind res_bind]. eexists. split; [reflexivity|].
  rewrite zip_with_row_of.
  rewrite (tocoo_coords row col (np_max row + 1) (np_max col + 1)).
  set (cs := coords row col (seqZ 0 (np_max row + 1))).
  assert (Hcs : Forall (fun p => (0 <= p.1 <= np_max row) /\
                                 (0 <= p.2 <= np_max col)) cs).
  { apply Forall_forall. intros [i j] [_ Hin]%elem_of_coords. simpl.
    pose proof (elem_of_zip_l _ _ _ _ Hin) as Hi.
    pose proof (elem_of_zip_r _ _ _ _ Hin) as Hj.
    rewrite Forall_forall in Hrow0. rewrite Forall_forall in Hcol0.
    pose proof (np_max_ge _ _ Hi). pose proof (np_max_ge _ _ Hj).
    pose proof (Hrow0 _ Hi). pose proof (Hcol0 _ Hj). simpl in *. lia. }
  assert (Hmr : np_max row < int64_max).
  { rewrite Forall_forall in Hrow64. apply Hrow64, np_max_elem.
    intros Hnil. rewrite Hnil in Hlenr. simpl in Hlenr. lia. }
  assert (Hmc : np_max col < int64_max).
  { rewrite Forall_forall in Hcol64. apply Hcol64, np_max_elem.
    intros Hnil. rewrite Hnil in Hlenc. simpl in Hlenc. lia. }
  constructor.
  - unfold of_rows. cbn [data shape foldr].
    clear Hcs. induction cs as [|p cs IH]; [done|].
    cbn [fmap list_fmap concat row_of length app] in *. rewrite IH. lia.
  - unfold of_rows, index_dtype. cbn [data dtype_of csr_shape fst snd].
    unfold int64_max in *.
    apply Forall_concat, Forall_fmap. eapply Forall_impl; [exact Hcs|].
    intros [i j] [Hi Hj]. simpl in *.
    destruct (Z.leb_spec (Z.max (np_max row + 1) (np_max col + 1))
                (2 ^ 31 - 1)); repeat constructor; simpl; lia.
  - unfold of_rows, index_dtype. cbn [dtype_of].
    destruct (_ <=? _); simpl; lia.
Qed.

(** C10.  On every well-formed integer matrix with 2 columns, at least one
    row and at least one negative entry, [fast_2d_2col_int_unique] passes
    its own checks and then raises one of the errors of the sparse
    constructor instead of returning. *)
Theorem negative_entry_raises (capacity : Z) (arr : ndarray) (n : nat) :
  wf arr ->
  issubdtype_integer (dtype_of arr) = true ->
  shape arr = [n; 2%nat] ->
  (0 < n)%nat ->
  Exists (fun z => z < 0) (data arr) ->
  raises_with construction_error (fast_2d_2col_int_unique capacity arr).
Proof.
  intros Hwf Hd Hshape Hn Hneg.
  destruct (rows_shape arr n 2 Hwf Hshape) as [_ Hrows].
  rewrite pairs_checked; try done; try (unfold ndim, shape_at; by rewrite Hshape).
  2:{ unfold shape_at. rewrite Hshape. simpl. lia. }
  unfold csr_matrix, raises_with, construction_error.
  rewrite !(length_column arr n 2) by done.
  destruct (Nat.eqb_spec n 0) as [|_]; [lia|]. cbn [orb].
  destruct (_ || _) eqn:Hshp; [simpl; eauto|].
  destruct (Z.ltb_spec (np_min (column 0 arr)) 0) as [|Hrow]; [simpl; eauto|].
  destruct (Z.ltb_spec (np_min (column 1 arr)) 0) as [|Hcol]; [simpl; eauto 6|].
  exfalso. apply Exists_exists in Hneg as (z & Hz & Hlt).
  destruct (elem_of_data_rows arr n 2 z Hwf Hshape Hz) as (r & Hr & Hzr).
  rewrite Forall_forall in Hrows. destruct (Hrows r Hr) as [Hlen _].
  destruct r as [|a [|b [|c r]]]; try done.
  assert (Ha : a ∈ column 0 arr).
  { unfold column. apply list_elem_of_fmap. by exists [a; b]. }
  assert (Hb : b ∈ column 1 arr).
  { unfold column. apply list_elem_of_fmap. by exists [a; b]. }
  apply np_min_le in Ha, Hb.
  apply elem_of_cons in Hzr as [->|Hzr]; [lia|].
  apply elem_of_cons in Hzr as [->|Hzr]; [lia|]. by apply elem_of_nil in Hzr.
Qed.

Lemma negative_entry_raises_witness :
  wf negative_pair /\
  issubdtype_integer (dtype_of negative_pair) = true /\
  shape negative_pair = [1; 2]%nat /\
  Exists (fun z => z < 0) (data negative_pair) /\
  raises_with construction_error (fast_2d_2col_int_unique example_capacity negative_pair).
Proof.
  assert (Hneg : Exists (fun z => z < 0) (data negative_pair))
    by (constructor; lia).
  split; [exact negative_pair_wf|]. split; [reflexivity|].
  split; [reflexivity|]. split; [exact Hneg|].
  apply (negative_entry_raises example_capacity negative_pair 1).
  - exact negative_pair_wf.
  - reflexivity.
  - reflexivity.
  - lia.
  - exact Hneg.
Defined.

(** ** Binary search *)

(** On an array whose items satisfy [go_right] up to position [k] and fail
    it from there on, the search ends at [k]. *)
Lemma bisect_boundary (go_right : Z -> bool) (l1 l2 : list Z) :
  Forall (fun x => go_right x = true) l1 ->
  Forall (fun x => go_right x = false) l2 ->
  forall fuel lo hi : nat,
    (lo <= length l1 <= hi)%nat -> (hi <= length (l1 ++ l2))%nat ->
    (hi - lo <= fuel)%nat ->
    bisect go_right (l1 ++ l2) fuel lo hi = length l1.
Proof.
  intros H1 H2. induction fuel as [|fuel IH]; intros lo hi Hk Hhi Hfuel.
  { simpl. lia. }
  cbn [bisect]. destruct (Nat.ltb_spec lo hi) as [Hlt|Hge]; [|lia].
  pose proof (Nat.div_mod_eq (hi - lo) 2) as Hdiv.
  pose proof (Nat.mod_upper_bound (hi - lo) 2 ltac:(lia)) as Hmod.
  set (mid := (lo + (hi - lo) / 2)%nat) in *.
  assert (lo <= mid < hi)%nat as Hmid by (unfold mid; lia).
  destruct (lookup_lt_is_Some_2 (l1 ++ l2) mid ltac:(lia)) as [x Hx].
  rewrite Hx.
  destruct (Nat.lt_ge_cases mid (length l1)) as [Hin|Hout].
  - rewrite lookup_app_l in Hx by done.
    apply list_elem_of_lookup_2 in Hx. rewrite Forall_forall in H1.
    rewrite (H1 x Hx). apply IH; lia.
  - rewrite lookup_app_r in Hx by done.
    apply list_elem_of_lookup_2 in Hx. rewrite Forall_forall in H2.
    rewrite (H2 x Hx). apply IH; lia.
Qed.

(** A sorted array splits at every threshold. *)
Lemma sorted_split (P : Z -> bool) (a : list Z) :
  (forall x y, x <= y -> P y = true -> P x = true) ->
  StronglySorted Z.le a ->
  exists l1 l2, a = l1 ++ l2 /\
    Forall (fun x => P x = true) l1 /\ Forall (fun x => P x = false) l2.
Proof.
  intros Hmono. induction 1 as [|x a Hs IH Hx].
  { exists [], []. repeat split; constructor. }
  destruct (P x) eqn:HPx.
  - destruct IH as (l1 & l2 & -> & H1 & H2).
    exists (x :: l1), l2. repeat split; [by constructor|done].
  - exists [], (x :: a). repeat split; [constructor|].
    constructor; [done|]. eapply Forall_impl; [exact Hx|].
    intros y Hxy. simpl. destruct (P y) eqn:HPy; [|done].
    by rewrite (Hmono x y Hxy HPy) in HPx.
Qed.

Lemma filter_split (P : Z -> bool) (l1 l2 : list Z) :
  Forall (fun x => P x = true) l1 -> Forall (fun x => P x = false) l2 ->
  List.filter P (l1 ++ l2) = l1.
Proof.
  intros H1 H2. rewrite List.filter_app.
  rewrite (List.forallb_filter_id P l1).
  - induction H2 as [|x l2 Hx H2 IH]; simpl; [by rewrite app_nil_r|].
    by rewrite Hx.
  - apply forallb_forall. rewrite Forall_forall in H1.
    intros x Hx%list_elem_of_In. auto.
Qed.

(** On a sorted array, [searchsorted] counts the items below the key. *)
Lemma searchsorted1_count (a : list Z) (sd : side) (v : Z) :
  StronglySorted Z.le a ->
  searchsorted1 a sd v =
    length (List.filter (fun x => match sd with
                                  | left_side => x <? v
                                  | right_side => x <=? v
                                  end) a).
Proof.
  intros Hs. unfold searchsorted1.
  set (P := fun x => match sd with left_side => x <? v | right_side => x <=? v end).
  destruct (sorted_split P a) as (l1 & l2 & -> & H1 & H2); [|done|].
  { intros x y Hxy. unfold P. destruct sd; lia. }
  rewrite (filter_split P l1 l2) by done.
  apply bisect_boundary; try done; rewrite ?length_app; lia.
Qed.

Lemma count_le_lt (v : Z) (l : list Z) :
  length (List.filter (fun x => x <=? v) l)
  = (length (List.filter (fun x => (x <? v)%Z) l) + occurrences v l)%nat.
Proof.
  unfold occurrences. induction l as [|x l IH]; [done|]. simpl.
  destruct (Z.leb_spec x v), (Z.ltb_spec x v), (Z.eqb_spec v x);
    simpl; lia.
Qed.

Lemma occurrences_Permutation (v : Z) (l k : list Z) :
  l ≡ₚ k -> occurrences v l = occurrences v k.
Proof.
  unfold occurrences. induction 1; simpl; try lia.
  - destruct (v =? x); simpl; lia.
  - destruct (v =? x), (v =? y); simpl; lia.
Qed.

Lemma occurrences_NoDup (v : Z) (l : list Z) :
  NoDup l -> occurrences v l = if bool_decide (v ∈ l) then 1%nat else 0%nat.
Proof.
  unfold occurrences. induction 1 as [|x l Hx Hl IH]; [done|]. simpl.
  destruct (Z.eqb_spec v x) as [->|Hne]; simpl.
  - rewrite bool_decide_true by left.
    rewrite IH, bool_decide_false by done. done.
  - rewrite IH. apply (f_equal (fun b : bool => if b then 1%nat else 0%nat)).
    apply bool_decide_ext. rewrite elem_of_cons.
    split; [by right|by intros [?|?]].
Qed.

Lemma cast_integer (d : dtype) (l : list Z) :
  issubdtype_integer d = true -> cast d <$> l = l.
Proof.
  intros Hd. rewrite <- (list_fmap_id l) at 2.
  apply list_fmap_ext. intros _ z _. by destruct d.
Qed.

(** When the two dtypes meet in an integer dtype, the search runs on the
    items as they are. *)
Lemma fast_isin_for_sorted_exact
    (elements test_elements : ndarray) (invert : bool) :
  common_integer_dtype test_elements elements ->
  fast_isin_for_sorted_test_elements elements test_elements invert
  = (fun v => xorb invert
        (searchsorted1 (data test_elements) right_side v
         =? searchsorted1 (data test_elements) left_side v + 1)%nat)
      <$> data elements.
Proof.
  intros Hd. unfold fast_isin_for_sorted_test_elements, searchsorted.
  rewrite !cast_integer by exact Hd.
  destruct invert; induction (data elements) as [|v l IH]; simpl; try done;
    f_equal; apply IH.
Qed.

(** What [fast_isin_for_sorted_test_elements] computes on a sorted copy of
    the candidates: whether the element occurs exactly once. *)
Lemma fast_isin_for_sorted_counts (elements candidates : ndarray) (invert : bool) :
  common_integer_dtype candidates elements ->
  fast_isin_for_sorted_test_elements elements (sorted candidates) invert
  = (fun v => xorb invert (occurrences v (data candidates) =? 1)%nat)
      <$> data elements.
Proof.
  intros Hd. rewrite fast_isin_for_sorted_exact by exact Hd.
  unfold sorted. cbn [data].
  assert (Hs : StronglySorted Z.le (NumpyOps.sort (data candidates))).
  { apply StronglySorted_merge_sort; apply _. }
  assert (Hstep : forall v,
    (searchsorted1 (NumpyOps.sort (data candidates)) right_side v
       =? searchsorted1 (NumpyOps.sort (data candidates)) left_side v + 1)%nat
    = (occurrences v (data candidates) =? 1)%nat).
  { intros v. rewrite !searchsorted1_count by done. rewrite count_le_lt.
    rewrite (occurrences_Permutation v _ (data candidates))
      by apply merge_sort_Permutation.
    destruct (Nat.eqb_spec (occurrences v (data candidates)) 1);
      [apply Nat.eqb_eq|apply Nat.eqb_neq]; lia. }
  apply list_fmap_ext. intros _ v _. simpl. by rewrite Hstep.
Qed.

(** With no repeated candidate the two membership tests agree. *)
Lemma fast_isin_agree_NoDup (elements candidates : ndarray) :
  common_integer_dtype candidates elements ->
  NoDup (data candidates) ->
  fast_isin elements candidates
  = fast_isin_for_sorted_test_elements elements (sorted candidates) false.
Proof.
  intros Hd Hnd. rewrite fast_isin_for_sorted_counts by exact Hd.
  assert (Hin : isin (data elements) (data candidates)
                = (fun v => xorb false (occurrences v (data candidates) =? 1)%nat)
                    <$> data elements).
  { unfold isin. apply list_fmap_ext. intros _ v _. simpl.
    rewrite occurrences_NoDup by done. by case_bool_decide. }
  unfold fast_isin. by destruct (_ || _).
Qed.

(** C8 fails on the code.  For the element 1 and the candidates [1, 1]
    [fast_isin] answers [True], and [fast_isin_for_sorted_test_elements] on
    the sorted candidates answers [False]: the two insertion points differ
    by 2, not by 1. *)
Theorem fast_isin_repeated_candidate :
  fast_isin one one_twice = [true] /\
  fast_isin_for_sorted_test_elements one (sorted one_twice) false = [false].
Proof. split; reflexivity. Qed.

(** A [uint64] array and an [int64] array are searched as [float64]: there
    [2 ** 53 + 1] is [2 ** 53], and the element is found. *)
Example fast_isin_for_sorted_float64 :
  promote_types (dtype_of even_int64) (dtype_of odd_uint64) = float_ 8 /\
  fast_isin_for_sorted_test_elements odd_uint64 even_int64 false = [true].
Proof. split; reflexivity. Qed.

(** * Proofs: the two-tower model *)

Section dssm_facts.
Import Torch DSSMNoInteractions.
Local Open Scope R_scope.

(** ** Linear layers *)

Lemma length_matvec W x : length (matvec W x) = length W.
Proof. unfold matvec. by rewrite length_fmap. Qed.

Lemma Linear_forward_ok (L : Linear) (X : Tensor) :
  Forall (fun x => length x = in_features L) X ->
  Linear_forward L X = Ok (linear_row L <$> X).
Proof.
  intros HX. unfold Linear_forward.
  rewrite (proj2 (forallb_forall _ X)); [done|].
  rewrite Forall_forall in HX. intros x Hx%list_elem_of_In.
  apply Nat.eqb_eq. auto.
Qed.

Lemma linear_row_nobias (i o : nat) (W : list (list R)) (b0 x : list R) :
  linear_row (nn_Linear i o false W b0) x = matvec W x.
Proof. reflexivity. Qed.

(** The residual block on a batch, layer by layer. *)
Lemma tower_layers (act : R -> R) (n_factors dim_input : nat)
    (W_emb W_dense W_out : list (list R)) (X : Tensor) :
  length W_emb = n_factors -> length W_dense = n_factors ->
  Forall (fun x => length x = dim_input) X ->
  (e ← Linear_forward (nn_Linear dim_input n_factors false W_emb []) X;
   let emb := tmap act e in
   d ← Linear_forward (nn_Linear n_factors n_factors false W_dense []) emb;
   let features := tmap act d in
   let x := tadd emb features in
   output ← Linear_forward (nn_Linear n_factors n_factors false W_out []) x;
   mret output)
  = Ok (tower act W_emb W_dense W_out <$> X).
Proof.
  intros Hemb Hdense HX.
  rewrite Linear_forward_ok by done. cbn [mbind res_bind].
  unfold tmap. rewrite <- list_fmap_compose.
  rewrite Linear_forward_ok.
  2:{ apply Forall_fmap, Forall_true. intros x.
      unfold compose. rewrite linear_row_nobias.
      by rewrite length_fmap, length_matvec. }
  cbn [mbind res_bind]. rewrite <- !list_fmap_compose.
  unfold tadd.
  assert (Hadd : forall (f g : list R -> list R),
    zip_with (zip_with Rplus) (f <$> X) (g <$> X)
    = (fun x => zip_with Rplus (f x) (g x)) <$> X).
  { intros f g. clear. induction X as [|x X IH]; [done|]. simpl. f_equal. apply IH. }
  rewrite Hadd.
  rewrite Linear_forward_ok.
  2:{ apply Forall_fmap, Forall_true. intros x.
      unfold compose. rewrite !linear_row_nobias.
      rewrite length_zip_with, !length_fmap, !length_matvec.
      cbn [in_features nn_Linear]. lia. }
  cbn [mbind res_bind mret res_ret]. rewrite <- list_fmap_compose. done.
Qed.

Lemma ItemNet_forward_tower (n_factors dim_input : nat) (act : R -> R)
    (w : weights) (X : Tensor) :
  weights_wf n_factors dim_input w ->
  Forall (fun x => length x = dim_input) X ->
  ItemNet.forward
    (ItemNet.init n_factors dim_input act (W_emb w) (W_dense w) (W_out w)) X
  = Ok (tower_of act w <$> X).
Proof.
  intros ([He _] & [Hd _] & _) HX. unfold ItemNet.forward, ItemNet.init.
  cbn [ItemNet.embedding_layer ItemNet.dense_layer ItemNet.output_layer
       ItemNet.activation].
  by apply tower_layers.
Qed.

Lemma UserNet_forward_tower (n_factors dim_input : nat) (act : R -> R)
    (w : weights) (X : Tensor) :
  weights_wf n_factors dim_input w ->
  Forall (fun x => length x = dim_input) X ->
  UserNet.forward
    (UserNet.init n_factors dim_input act (W_emb w) (W_dense w) (W_out w)) X
  = Ok (tower_of act w <$> X).
Proof.
  intros ([He _] & [Hd _] & _) HX. unfold UserNet.forward, UserNet.init.
  cbn [UserNet.embedding_features_layer UserNet.features_dense_layer
       UserNet.output_layer UserNet.activation].
  by apply tower_layers.
Qed.

Lemma length_tower_of (n_factors dim_input : nat) (act : R -> R)
    (w : weights) (x : list R) :
  weights_wf n_factors dim_input w -> length (tower_of act w x) = n_factors.
Proof.
  intros (_ & _ & [Ho _]). unfold tower_of, tower. by rewrite length_matvec.
Qed.

(** C2.  On every batch of rows [dim_input] wide, each tower, with its own
    well-shaped weights, returns for every row [x] the value
    [W_out (base + residual)] with [base = act (W_emb x)] and
    [residual = act (W_dense base)]; none of the three layers has a bias.
    The output is a function of the input and the parameters alone. *)
Theorem encoder_tower (n_factors dim_input : nat) (act : R -> R)
    (wu wi : weights) (X : Tensor) :
  weights_wf n_factors dim_input wu ->
  weights_wf n_factors dim_input wi ->
  Forall (fun x => length x = dim_input) X ->
  let user_net := UserNet.init n_factors dim_input act
                    (W_emb wu) (W_dense wu) (W_out wu) in
  let item_net := ItemNet.init n_factors dim_input act
                    (W_emb wi) (W_dense wi) (W_out wi) in
  UserNet.forward user_net X
    = Ok (tower act (W_emb wu) (W_dense wu) (W_out wu) <$> X) /\
  ItemNet.forward item_net X
    = Ok (tower act (W_emb wi) (W_dense wi) (W_out wi) <$> X) /\
  bias (UserNet.embedding_features_layer user_net) = None /\
  bias (UserNet.features_dense_layer user_net) = None /\
  bias (UserNet.output_layer user_net) = None /\
  bias (ItemNet.embedding_layer item_net) = None /\
  bias (ItemNet.dense_layer item_net) = None /\
  bias (ItemNet.output_layer item_net) = None.
Proof.
  intros Hu Hi HX. cbv zeta. split; [|split]; [| |done].
  - by apply (UserNet_forward_tower n_factors dim_input).
  - by apply (ItemNet_forward_tower n_factors dim_input).
Qed.

Lemma unit_weights_wf : weights_wf 1 1 unit_weights.
Proof. repeat split; repeat constructor. Defined.

Lemma encoder_tower_witness :
  weights_wf 1 1 unit_weights /\
  Forall (fun x : list R => length x = 1%nat) [[1]] /\
  UserNet.forward (user_net unit_model) [[1]]
    = Ok (tower elu [[1]] [[1]] [[1]] <$> [[1]]) /\
  ItemNet.forward (item_net unit_model) [[1]]
    = Ok (tower elu [[1]] [[1]] [[1]] <$> [[1]]).
Proof.
  assert (HX : Forall (fun x : list R => length x = 1%nat) [[1]])
    by (repeat constructor).
  split; [exact unit_weights_wf|]. split; [exact HX|].
  destruct (encoder_tower 1 1 elu unit_weights unit_weights [[1]]
              unit_weights_wf unit_weights_wf HX) as (Hu & Hi & _).
  split; [exact Hu|exact Hi].
Defined.

Lemma elu_pos (x : R) : 0 < x -> elu x = x.
Proof. intros Hx. unfold elu. by destruct (Rlt_dec 0 x). Qed.

(** On a positive input the unit tower doubles it. *)
Lemma unit_tower (x : R) : 0 < x -> tower_of elu unit_weights [x] = [2 * x].
Proof.
  intros Hx. unfold tower_of, tower, matvec, dot, sum. simpl.
  replace (1 * x + 0) with x by lra. rewrite (elu_pos x) by done.
  replace (1 * x + 0) with x by lra. rewrite (elu_pos x) by done.
  f_equal. lra.
Qed.

(** ** The forward pass *)

Lemma has_shape_tower (n_factors dim_input : nat) act w (X : Tensor) :
  weights_wf n_factors dim_input w ->
  has_shape (length X) n_factors (tower_of act w <$> X).
Proof.
  intros Hw. split; [by rewrite length_fmap|].
  apply Forall_fmap, Forall_true. intros x.
  by apply (length_tower_of n_factors dim_input).
Qed.

Lemma forward_ok
    (n_factors_user n_factors_item dim_input_user dim_input_item : nat)
    (act : R -> R) (lr margin weight_decay : R) (flag : bool)
    (wu wi : weights) (item_features_pos item_features_neg user_features : Tensor) :
  weights_wf n_factors_user dim_input_user wu ->
  weights_wf n_factors_item dim_input_item wi ->
  Forall (fun x => length x = dim_input_user) user_features ->
  Forall (fun x => length x = dim_input_item) item_features_pos ->
  Forall (fun x => length x = dim_input_item) item_features_neg ->
  forward (init n_factors_user n_factors_item dim_input_user dim_input_item
             act lr margin weight_decay flag wu wi)
          item_features_pos item_features_neg user_features
  = Ok (tower_of act wu <$> user_features,
        tower_of act wi <$> item_features_pos,
        tower_of act wi <$> item_features_neg).
Proof.
  intros Hu Hi Huser Hpos Hneg.
  unfold forward. cbn [init user_net item_net].
  rewrite (UserNet_forward_tower _ _ act wu _ Hu Huser).
  rewrite (ItemNet_forward_tower _ _ act wi _ Hi Hpos).
  rewrite (ItemNet_forward_tower _ _ act wi _ Hi Hneg).
  reflexivity.
Qed.

(** C3, as amended.  Taking its arguments in the order
    [(item_features_pos, item_features_neg, user_features)], the forward
    pass returns [(anchor, pos, neg)], the user tower on [user_features] and
    the item tower on each item batch.  Every output is given by its own
    tower's weights and input alone, and has one row per input row,
    [n_factors] of its tower wide. *)
Theorem forward_towers
    (n_factors_user n_factors_item dim_input_user dim_input_item : nat)
    (act : R -> R) (lr margin weight_decay : R) (flag : bool)
    (wu wi : weights) (item_features_pos item_features_neg user_features : Tensor) :
  weights_wf n_factors_user dim_input_user wu ->
  weights_wf n_factors_item dim_input_item wi ->
  Forall (fun x => length x = dim_input_user) user_features ->
  Forall (fun x => length x = dim_input_item) item_features_pos ->
  Forall (fun x => length x = dim_input_item) item_features_neg ->
  let self := init n_factors_user n_factors_item dim_input_user dim_input_item
                act lr margin weight_decay flag wu wi in
  exists anchor pos neg,
    forward self item_features_pos item_features_neg user_features
      = Ok (anchor, pos, neg) /\
    UserNet.forward (user_net self) user_features = Ok anchor /\
    ItemNet.forward (item_net self) item_features_pos = Ok pos /\
    ItemNet.forward (item_net self) item_features_neg = Ok neg /\
    anchor = tower_of act wu <$> user_features /\
    pos = tower_of act wi <$> item_features_pos /\
    neg = tower_of act wi <$> item_features_neg /\
    has_shape (length user_features) n_factors_user anchor /\
    has_shape (length item_features_pos) n_factors_item pos /\
    has_shape (length item_features_neg) n_factors_item neg.
Proof.
  intros Hu Hi Huser Hpos Hneg self.
  eexists _, _, _. split; [by apply forward_ok|].
  split; [by apply UserNet_forward_tower|].
  split; [by apply ItemNet_forward_tower|].
  split; [by apply ItemNet_forward_tower|].
  repeat split; try reflexivity;
    try (by rewrite length_fmap);
    apply Forall_fmap, Forall_true; intros x;
    eapply length_tower_of; eassumption.
Qed.

Lemma forward_towers_witness :
  weights_wf 1 1 unit_weights /\
  Forall (fun x : list R => length x = 1%nat) [[1]] /\
  Forall (fun x : list R => length x = 1%nat) [[2]] /\
  Forall (fun x : list R => length x = 1%nat) [[3]] /\
  exists anchor pos neg,
    forward unit_model [[2]] [[3]] [[1]] = Ok (anchor, pos, neg) /\
    UserNet.forward (user_net unit_model) [[1]] = Ok anchor /\
    ItemNet.forward (item_net unit_model) [[2]] = Ok pos /\
    ItemNet.forward (item_net unit_model) [[3]] = Ok neg /\
    has_shape 1 1 anchor /\ has_shape 1 1 pos /\ has_shape 1 1 neg.
Proof.
  assert (H1 : Forall (fun x : list R => length x = 1%nat) [[1]])
    by (repeat constructor).
  assert (H2 : Forall (fun x : list R => length x = 1%nat) [[2]])
    by (repeat constructor).
  assert (H3 : Forall (fun x : list R => length x = 1%nat) [[3]])
    by (repeat constructor).
  split; [exact unit_weights_wf|].
  split; [exact H1|]. split; [exact H2|]. split; [exact H3|].
  destruct (forward_towers 1 1 1 1 elu (1 / 100) (4 / 10) (1 / 1000000) true
              unit_weights unit_weights [[2]] [[3]] [[1]]
              unit_weights_wf unit_weights_wf H1 H2 H3)
    as (anchor & pos & neg & Hf & Ha & Hp & Hn & _ & _ & _ & Sa & Sp & Sn).
  exists anchor, pos, neg. auto 10.
Defined.

Lemma unit_forward (p n u : R) :
  0 < p -> 0 < n -> 0 < u ->
  forward unit_model [[p]] [[n]] [[u]] = Ok ([[2 * u]], [[2 * p]], [[2 * n]]).
Proof.
  intros Hp Hn Hu. unfold unit_model.
  rewrite (forward_ok 1 1 1 1); try exact unit_weights_wf;
    try (repeat constructor).
  cbn [fmap list_fmap]. by rewrite !unit_tower.
Qed.

Lemma unit_towers (u p n : R) :
  0 < u -> 0 < p -> 0 < n ->
  towers unit_model [[u]] [[p]] [[n]] = Ok ([[2 * u]], [[2 * p]], [[2 * n]]).
Proof.
  intros Hu Hp Hn. rewrite <- (unit_forward p n u) by done. reflexivity.
Qed.

(** C3, as stated, fails: called with its arguments in the order
    [(user_features, item_features_pos, item_features_neg)], the forward
    pass feeds the user features to the item tower and the negative items
    to the user tower. *)
Lemma forward_argument_order :
  forward unit_model [[1]] [[2]] [[3]] = Ok ([[2 * 3]], [[2 * 1]], [[2 * 2]]) /\
  towers unit_model [[1]] [[2]] [[3]] = Ok ([[2 * 1]], [[2 * 2]], [[2 * 3]]) /\
  forward unit_model [[1]] [[2]] [[3]] <> towers unit_model [[1]] [[2]] [[3]].
Proof.
  assert (H1 : forward unit_model [[1]] [[2]] [[3]]
               = Ok ([[2 * 3]], [[2 * 1]], [[2 * 2]])) by (apply unit_forward; lra).
  assert (H2 : towers unit_model [[1]] [[2]] [[3]]
               = Ok ([[2 * 1]], [[2 * 2]], [[2 * 3]])) by (apply unit_towers; lra).
  repeat split; try done. rewrite H1, H2. intros [= H]. lra.
Qed.

(** ** The triplet loss *)

Lemma sum_nonneg (l : list R) : Forall (fun x => 0 <= x) l -> 0 <= sum l.
Proof. induction 1 as [|x l Hx Hl IH]; simpl; lra. Qed.

Lemma mean_nonneg (l : list R) :
  l <> [] -> Forall (fun x => 0 <= x) l -> 0 <= mean l.
Proof.
  intros Hne Hl. unfold mean. apply Rmult_le_pos; [by apply sum_nonneg|].
  apply Rlt_le, Rinv_0_lt_compat, lt_0_INR.
  destruct l; [done|simpl; lia].
Qed.

Lemma triplet_mean_nonneg d margin (anchor pos neg : Tensor) :
  anchor <> [] -> length pos = length anchor -> length neg = length anchor ->
  0 <= triplet_mean d margin anchor pos neg.
Proof.
  intros Hne Hp Hn. unfold triplet_mean. apply mean_nonneg.
  - destruct anchor, pos, neg; done.
  - apply Forall_forall.
    intros x (a & pn & -> & _)%elem_of_zip_with. apply Rmax_l.
Qed.

Lemma same_shape_true (X Y : Tensor) (n w : nat) :
  has_shape n w X -> has_shape n w Y -> same_shape X Y = true.
Proof.
  intros [HX1 HX2] [HY1 HY2]. unfold same_shape.
  apply andb_true_intro. split; [apply Nat.eqb_eq; congruence|].
  apply forallb_forall. intros [x y] Hin%list_elem_of_In. simpl.
  apply Nat.eqb_eq. rewrite Forall_forall in HX2. rewrite Forall_forall in HY2.
  rewrite (HX2 x), (HY2 y); [done|..].
  - by eapply elem_of_zip_r.
  - by eapply elem_of_zip_l.
Qed.

Lemma triplet_margin_loss_mean (anchor pos neg : Tensor) (margin eps : R) (n w : nat) :
  has_shape n w anchor -> has_shape n w pos -> has_shape n w neg ->
  triplet_margin_loss anchor pos neg margin eps
  = Ok (triplet_mean (pairwise_distance eps) margin anchor pos neg).
Proof.
  intros Ha Hp Hn. unfold triplet_margin_loss.
  rewrite (same_shape_true anchor pos n w), (same_shape_true anchor neg n w)
    by done.
  cbn [andb]. unfold triplet_mean. do 2 f_equal.
  clear. revert pos neg.
  induction anchor as [|a anchor IH]; intros [|p pos] [|q neg]; simpl; try done.
  rewrite Rmax_comm. f_equal. apply IH.
Qed.

(** C1, as amended.  For every non-empty batch of well-shaped triples,
    [training_step] returns the mean over the batch of
    [max(0, margin + d(anchor, pos) - d(anchor, neg))], where [margin] is the
    configured [triplet_loss_margin] and [d(x, y)] is the 2-norm of
    [x - y + eps] with the default [eps = 1e-6] of the loss; the value is
    at least 0, and [validation_step] computes the same value. *)
Theorem training_step_loss
    (n_factors dim_input_user dim_input_item : nat)
    (act : R -> R) (lr margin weight_decay : R) (flag : bool)
    (wu wi : weights) (user_features pos neg : Tensor) :
  weights_wf n_factors dim_input_user wu ->
  weights_wf n_factors dim_input_item wi ->
  Forall (fun x => length x = dim_input_user) user_features ->
  Forall (fun x => length x = dim_input_item) pos ->
  Forall (fun x => length x = dim_input_item) neg ->
  user_features <> [] ->
  length pos = length user_features ->
  length neg = length user_features ->
  let self := init n_factors n_factors dim_input_user dim_input_item
                act lr margin weight_decay flag wu wi in
  let loss := triplet_mean (pairwise_distance default_eps) margin
                (tower_of act wu <$> user_features)
                (tower_of act wi <$> pos)
                (tower_of act wi <$> neg) in
  training_step self (user_features, pos, neg)
    = Ok (loss, ("loss"%string, loss, flag)) /\
  0 <= loss /\
  validation_step self (user_features, pos, neg)
    = Ok (loss, ("val_loss"%string, loss, flag)).
Proof.
  intros Hu Hi Huser Hpos Hneg Hne Hlp Hln self loss.
  pose proof (forward_ok n_factors n_factors dim_input_user dim_input_item
                act lr margin weight_decay flag wu wi pos neg user_features
                Hu Hi Huser Hpos Hneg) as Hfw.
  pose proof (has_shape_tower _ _ act wu user_features Hu) as Hsa.
  pose proof (has_shape_tower _ _ act wi pos Hi) as Hsp.
  pose proof (has_shape_tower _ _ act wi neg Hi) as Hsn.
  fold self in Hfw. rewrite Hlp in Hsp. rewrite Hln in Hsn.
  unfold training_step, validation_step. rewrite Hfw.
  cbn [mbind res_bind].
  rewrite (triplet_margin_loss_mean _ _ _ _ _ _ _ Hsa Hsp Hsn).
  cbn [mbind res_bind mret res_ret]. fold loss.
  split; [done|split; [|done]].
  apply triplet_mean_nonneg; rewrite ?length_fmap; try done.
  by destruct user_features.
Qed.

Lemma training_step_loss_witness :
  weights_wf 1 1 unit_weights /\
  Forall (fun x : list R => length x = 1%nat) [[1]] /\
  Forall (fun x : list R => length x = 1%nat) [[1 / 2]] /\
  Forall (fun x : list R => length x = 1%nat) [[3 / 2]] /\
  let loss := triplet_mean (pairwise_distance default_eps) (4 / 10)
                (tower_of elu unit_weights <$> [[1]])
                (tower_of elu unit_weights <$> [[1 / 2]])
                (tower_of elu unit_weights <$> [[3 / 2]]) in
  training_step unit_model ([[1]], [[1 / 2]], [[3 / 2]])
    = Ok (loss, ("loss"%string, loss, true)) /\
  0 <= loss /\
  validation_step unit_model ([[1]], [[1 / 2]], [[3 / 2]])
    = Ok (loss, ("val_loss"%string, loss, true)).
Proof.
  assert (H1 : Forall (fun x : list R => length x = 1%nat) [[1]])
    by (repeat constructor).
  assert (H2 : Forall (fun x : list R => length x = 1%nat) [[1 / 2]])
    by (repeat constructor).
  assert (H3 : Forall (fun x : list R => length x = 1%nat) [[3 / 2]])
    by (repeat constructor).
  split; [exact unit_weights_wf|].
  split; [exact H1|]. split; [exact H2|]. split; [exact H3|].
  apply (training_step_loss 1 1 1 elu (1 / 100) (4 / 10) (1 / 1000000) true
           unit_weights unit_weights [[1]] [[1 / 2]] [[3 / 2]]
           unit_weights_wf unit_weights_wf H1 H2 H3).
  - discriminate.
  - reflexivity.
  - reflexivity.
Defined.

Lemma sqrt_sqr_1 (x : R) : 0 <= x -> sqrt (Rsqr x + 0) = x.
Proof. intros Hx. rewrite Rplus_0_r. by apply sqrt_Rsqr. Qed.

(** C1, as stated, fails: with the default [eps] the loss of the code is
    not the loss of the Euclidean distance. *)
Lemma training_step_not_euclidean :
  let batch := ([[1]], [[1 / 2]], [[3 / 2]]) in
  let code_loss := 4 / 10 + 2 / 1000000 in
  training_step unit_model batch = Ok (code_loss, ("loss"%string, code_loss, true)) /\
  triplet_mean euclidean (triplet_loss_margin unit_model)
    [[2 * 1]] [[2 * (1 / 2)]] [[2 * (3 / 2)]] = 4 / 10 /\
  forward unit_model [[1 / 2]] [[3 / 2]] [[1]]
    = Ok ([[2 * 1]], [[2 * (1 / 2)]], [[2 * (3 / 2)]]) /\
  code_loss <> 4 / 10.
Proof.
  cbv zeta. split; [|split; [|split]].
  - unfold training_step. rewrite unit_forward by lra.
    cbn [mbind res_bind]. unfold triplet_margin_loss. simpl.
    cbn [mbind res_bind mret res_ret]. unfold mean, pairwise_distance. simpl.
    replace (Rsqr (2 * 1 - 2 * (1 / 2) + default_eps))
      with (Rsqr (1 + default_eps)) by (f_equal; lra).
    replace (Rsqr (2 * 1 - 2 * (3 / 2) + default_eps))
      with (Rsqr (1 - default_eps)) by (unfold Rsqr, default_eps; lra).
    rewrite !sqrt_sqr_1 by (unfold default_eps; lra).
    rewrite Rmax_left by (unfold default_eps; lra).
    replace ((4 / 10 + (1 + default_eps) - (1 - default_eps) + 0) / 1)
      with (4 / 10 + 2 / 1000000) by (unfold default_eps; lra).
    reflexivity.
  - unfold triplet_mean, mean, euclidean. simpl.
    replace (Rsqr (2 * 1 - 2 * (1 / 2))) with (Rsqr 1) by (f_equal; lra).
    replace (Rsqr (2 * 1 - 2 * (3 / 2))) with (Rsqr 1) by (unfold Rsqr; lra).
    rewrite !sqrt_sqr_1 by lra. rewrite Rmax_right by lra. lra.
  - apply unit_forward; lra.
  - lra.
Qed.

(** ** Inference *)

Lemma for_batches_ok (net : Tensor -> res Tensor) (f : list R -> list R)
    (dataloader : list Tensor) :
  Forall (fun batch : Tensor => net batch = Ok (f <$> batch)) dataloader ->
  forall batches,
    for_batches net dataloader batches
    = Ok (batches ++ ((fun batch : Tensor => f <$> batch) <$> dataloader)).
Proof.
  induction 1 as [|batch rest Hb Hrest IH]; intros batches; simpl.
  - by rewrite app_nil_r.
  - rewrite Hb. cbn [mbind res_bind]. rewrite IH.
    by rewrite <- (assoc_L (++)).
Qed.

Lemma concat_fmap_fmap {A B} (f : A -> B) (ls : list (list A)) :
  concat ((fun l : list A => f <$> l) <$> ls) = f <$> concat ls.
Proof.
  induction ls as [|l ls IH]; [done|].
  rewrite fmap_cons. cbn [concat]. by rewrite IH, fmap_app.
Qed.

Lemma cat_for_batches (net : Tensor -> res Tensor) (f : list R -> list R)
    (dataloader : list Tensor) :
  dataloader <> [] ->
  Forall (fun batch : Tensor => net batch = Ok (f <$> batch)) dataloader ->
  (batches ← for_batches net dataloader [];
   vectors ← cat batches;
   mret vectors)
  = Ok (f <$> concat dataloader).
Proof.
  intros Hne Hnet. rewrite (for_batches_ok net f) by done.
  cbn [mbind res_bind app]. destruct dataloader as [|b rest]; [done|].
  cbn [fmap list_fmap cat mbind res_bind mret res_ret].
  f_equal. apply (concat_fmap_fmap f (b :: rest)).
Qed.

Lemma inference_post_tower (net : Tensor -> res Tensor) (f : list R -> list R)
    (dataloader : list Tensor) :
  (forall x, x ∈ concat dataloader -> net [x] = Ok [f x]) ->
  inference_post net dataloader (Ok (f <$> concat dataloader)).
Proof.
  intros Hnet. exists (f <$> concat dataloader).
  split; [done|]. split; [by rewrite length_fmap|].
  intros i x Hi. exists (f x). split; [by rewrite list_lookup_fmap, Hi|].
  apply Hnet. by eapply list_elem_of_lookup_2.
Qed.

(** C4, as amended.  For every dataloader that yields at least one batch,
    all rows as wide as the tower expects, [inference_users] and
    [inference_items] return a matrix with one row per element yielded,
    the row at position [i] being the output of the tower on the element at
    position [i] of the iteration. *)
Theorem inference_rows
    (n_factors_user n_factors_item dim_input_user dim_input_item : nat)
    (act : R -> R) (lr margin weight_decay : R) (flag : bool)
    (wu wi : weights) (users items : list Tensor) :
  weights_wf n_factors_user dim_input_user wu ->
  weights_wf n_factors_item dim_input_item wi ->
  users <> [] -> items <> [] ->
  Forall (Forall (fun x => length x = dim_input_user)) users ->
  Forall (Forall (fun x => length x = dim_input_item)) items ->
  let self := init n_factors_user n_factors_item dim_input_user dim_input_item
                act lr margin weight_decay flag wu wi in
  inference_post (UserNet.forward (user_net self)) users
    (inference_users self users).2 /\
  inference_post (ItemNet.forward (item_net self)) items
    (inference_items self items).2.
Proof.
  intros Hu Hi Hune Hine Husers Hitems self.
  unfold inference_users, inference_items. cbn [snd]. split.
  - rewrite (cat_for_batches _ (tower_of act wu)); [|done|].
    + apply inference_post_tower. intros x Hx.
      apply (UserNet_forward_tower _ _ act wu [x] Hu).
      constructor; [|constructor].
      apply list_elem_of_In, in_concat in Hx as (b & Hb%list_elem_of_In & Hx%list_elem_of_In).
      rewrite Forall_forall in Husers. specialize (Husers b Hb).
      rewrite Forall_forall in Husers. auto.
    + eapply Forall_impl; [exact Husers|]. intros b Hb.
      by apply (UserNet_forward_tower _ _ act wu b Hu).
  - rewrite (cat_for_batches _ (tower_of act wi)); [|done|].
    + apply inference_post_tower. intros x Hx.
      apply (ItemNet_forward_tower _ _ act wi [x] Hi).
      constructor; [|constructor].
      apply list_elem_of_In, in_concat in Hx as (b & Hb%list_elem_of_In & Hx%list_elem_of_In).
      rewrite Forall_forall in Hitems. specialize (Hitems b Hb).
      rewrite Forall_forall in Hitems. auto.
    + eapply Forall_impl; [exact Hitems|]. intros b Hb.
      by apply (ItemNet_forward_tower _ _ act wi b Hi).
Qed.

Lemma inference_rows_witness :
  let users : list Tensor := [[[1]; [2]]; [[3]]] in
  let items : list Tensor := [[[4]]; [[5]; [6]]] in
  weights_wf 1 1 unit_weights /\
  users <> [] /\ items <> [] /\
  Forall (Forall (fun x : list R => length x = 1%nat)) users /\
  Forall (Forall (fun x : list R => length x = 1%nat)) items /\
  inference_post (UserNet.forward (user_net unit_model)) users
    (inference_users unit_model users).2 /\
  inference_post (ItemNet.forward (item_net unit_model)) items
    (inference_items unit_model items).2.
Proof.
  intros users items.
  assert (Hu : Forall (Forall (fun x : list R => length x = 1%nat)) users)
    by (repeat constructor).
  assert (Hi : Forall (Forall (fun x : list R => length x = 1%nat)) items)
    by (repeat constructor).
  assert (Hune : users <> []) by discriminate.
  assert (Hine : items <> []) by discriminate.
  split; [exact unit_weights_wf|].
  split; [exact Hune|]. split; [exact Hine|].
  split; [exact Hu|]. split; [exact Hi|].
  exact (inference_rows 1 1 1 1 elu (1 / 100) (4 / 10) (1 / 1000000) true
           unit_weights unit_weights users items
           unit_weights_wf unit_weights_wf Hune Hine Hu Hi).
Defined.

(** C4, as stated, fails on a dataloader that yields no batch: [torch.cat]
    raises on the empty list of outputs. *)
Lemma inference_no_batches :
  (inference_users unit_model []).2
    = Raise (RuntimeError "torch.cat(): expected a non-empty list of Tensors") /\
  (inference_items unit_model []).2
    = Raise (RuntimeError "torch.cat(): expected a non-empty list of Tensors") /\
  ~ inference_post (UserNet.forward (user_net unit_model)) []
      (inference_users unit_model []).2 /\
  ~ inference_post (ItemNet.forward (item_net unit_model)) []
      (inference_items unit_model []).2.
Proof.
  repeat split; try reflexivity; intros (v & Hv & _); discriminate Hv.
Qed.

(** C5.  [inference_users] and [inference_items] leave every parameter of
    both towers as it was, and a second call on the module they leave
    behind, with the same dataloader contents, returns the same factors. *)
Theorem inference_frame (self : t) (dataloader : list Tensor) :
  parameters (inference_users self dataloader).1 = parameters self /\
  parameters (inference_items self dataloader).1 = parameters self /\
  (inference_users (inference_users self dataloader).1 dataloader).2
    = (inference_users self dataloader).2 /\
  (inference_items (inference_items self dataloader).1 dataloader).2
    = (inference_items self dataloader).2 /\
  (inference_users (inference_items self dataloader).1 dataloader).2
    = (inference_users self dataloader).2 /\
  (inference_items (inference_users self dataloader).1 dataloader).2
    = (inference_items self dataloader).2.
Proof. repeat split; reflexivity. Qed.

End dssm_facts.

(** * Proofs: further properties of the array utilities *)

(** ** The order of the unique items *)

Section unique_order.
Context {A : Type} `{EqDecision A} (le : relation A) `{!RelDecision le}.


Lemma run_sorted `{!Transitive le} `{!AntiSymm (=) le} (t : list A) : forall p : A,
  StronglySorted le (p :: t) ->
  StronglySorted (lt_of le) (p :: compress (marks p t) t).
Proof.
  induction t as [|y t IH]; intros p Hs.
  { repeat constructor. }
  pose proof Hs as Hs'.
  apply StronglySorted_cons in Hs as [Hp Hs].
  apply Forall_cons in Hp as [Hpy Hp].
  rewrite marks_cons. simpl. case_bool_decide as Hyp.
  - specialize (IH y Hs). apply StronglySorted_cons. split; [|done].
    apply Forall_forall. intros z Hz.
    assert (Hyz : z = y \/ (lt_of le) y z).
    { apply elem_of_cons in Hz as [->|Hz]; [by left|right].
      apply StronglySorted_cons in IH as [IH _].
      rewrite Forall_forall in IH. auto. }
    destruct Hyz as [->|[Hle Hne]]; [split; [done|congruence]|].
    split; [by etrans|]. intros ->. apply Hyp.
    by apply (anti_symm le).
  - subst y. by apply IH.
Qed.

Lemma unique_sorted `{!Transitive le} `{!AntiSymm (=) le} (aux : list A) :
  StronglySorted le aux ->
  StronglySorted (lt_of le) (compress (adjacent_mask aux) aux).
Proof.
  destruct aux as [|x0 t]; intros Hs; simpl; [constructor|].
  by apply run_sorted.
Qed.

Lemma argsort_sorted `{!Total le} `{!Transitive le} (ar : list A) :
  StronglySorted le (argsort le ar).*2.
Proof.
  apply Sorted_StronglySorted; [done|].
  apply (Sorted_fmap snd (key_le le)); [by intros [] []|].
  apply Sorted_merge_sort. intros [] []. unfold key_le. simpl. apply total, _.
Qed.

(** The unique items come out strictly ascending. *)
Lemma unique_inverse_sorted
    `{!Total le} `{!Transitive le} `{!AntiSymm (=) le} (ar : list A) :
  StronglySorted (lt_of le) (unique_inverse le ar).1.
Proof.
  unfold unique_inverse. cbn [fst]. apply unique_sorted, argsort_sorted.
Qed.

Lemma marks_strict (t : list A) : forall p,
  StronglySorted (lt_of le) (p :: t) -> marks p t = replicate (length t) true.
Proof.
  induction t as [|y t IH]; intros p Hs; [done|].
  apply StronglySorted_cons in Hs as [Hp Hs].
  apply Forall_cons in Hp as [[_ Hpy] _].
  rewrite marks_cons. simpl. rewrite bool_decide_true by congruence.
  f_equal. by apply IH.
Qed.

Lemma compress_all (l : list A) : compress (replicate (length l) true) l = l.
Proof. induction l as [|x l IH]; simpl; [done|]. by rewrite IH. Qed.

Lemma cumsum_all (n : nat) : forall acc,
  cumsum acc (replicate n true) = seq (S acc) n.
Proof.
  induction n as [|n IH]; intros acc; simpl; [done|].
  rewrite Nat.add_1_r. f_equal. apply IH.
Qed.

Lemma scatter_seq (vals : list nat) : forall (dst : list nat) (k n : nat),
  n = length vals -> length dst = (k + n)%nat ->
  scatter dst (seq k n) vals = take k dst ++ vals.
Proof.
  unfold scatter.
  induction vals as [|v vals IH]; intros dst k n -> Hlen; simpl.
  - rewrite app_nil_r, take_ge; [done|]. simpl in Hlen. lia.
  - simpl in Hlen. rewrite (IH _ _ _ eq_refl) by (rewrite length_insert; lia).
    rewrite (take_S_r _ _ v).
    2:{ apply list_lookup_insert_eq. lia. }
    rewrite take_insert_ge by lia. by rewrite <- (assoc_L (++)).
Qed.

(** A strictly ascending array is its own sorted copy. *)
Lemma argsort_strict `{!Total le} `{!Transitive le} `{!AntiSymm (=) le} (ar : list A) :
  StronglySorted (lt_of le) ar ->
  argsort le ar = zip (seq 0 (length ar)) ar.
Proof.
  intros Hs. unfold argsort.
  assert (Hkey : forall k (l : list A),
    StronglySorted (lt_of le) l -> StronglySorted (key_le le) (zip (seq k (length l)) l)).
  { intros k l Hl. revert k. induction Hl as [|x l Hl IH Hx]; intros k; simpl.
    { constructor. }
    constructor; [apply IH|]. apply Forall_forall. intros [j y] Hin.
    apply elem_of_zip_r in Hin. rewrite Forall_forall in Hx.
    unfold key_le. simpl. by destruct (Hx y Hin). }
  assert (Hnd : NoDup ar).
  { clear Hkey. induction Hs as [|x l Hl IH Hx]; constructor; [|done].
    intros Hin. rewrite Forall_forall in Hx. by destruct (Hx x Hin). }
  apply (StronglySorted_unique_strong (key_le le)).
  - intros [i x] [j y] Hi Hj Hxy Hyx.
    rewrite merge_sort_Permutation in Hi.
    unfold key_le in *. simpl in *.
    assert (x = y) as -> by (by apply (anti_symm le)).
    apply list_elem_of_lookup in Hi as [a Ha], Hj as [b Hb].
    apply lookup_zip_Some in Ha as [Ha1 Ha2], Hb as [Hb1 Hb2].
    apply lookup_seq in Ha1 as [-> _], Hb1 as [-> _]. simpl.
    by rewrite (NoDup_lookup ar a b y Hnd Ha2 Hb2).
  - apply Sorted_StronglySorted.
    { intros [] [] []. unfold key_le. simpl. apply transitivity. }
    apply Sorted_merge_sort. intros [] []. unfold key_le. simpl. apply total, _.
  - by apply Hkey.
  - apply merge_sort_Permutation.
Qed.

(** On a strictly ascending array nothing is merged and every item is its
    own inverse index. *)
Lemma unique_inverse_strict
    `{!Total le} `{!Transitive le} `{!AntiSymm (=) le} (ar : list A) :
  StronglySorted (lt_of le) ar ->
  unique_inverse le ar = (ar, seq 0 (length ar)).
Proof.
  intros Hs. unfold unique_inverse. rewrite argsort_strict by done.
  rewrite fst_zip, snd_zip by (rewrite length_seq; lia).
  assert (Hmask : adjacent_mask ar = replicate (length ar) true).
  { destruct ar as [|x t]; [done|]. simpl. f_equal. by apply marks_strict. }
  rewrite Hmask, compress_all, cumsum_all. f_equal.
  assert (Himask : forall n, (fun c => (c - 1)%nat) <$> seq 1 n = seq 0 n).
  { intros n. rewrite <- (fmap_S_seq 0), <- list_fmap_compose.
    rewrite <- (list_fmap_id (seq 0 n)) at 2.
    apply list_fmap_ext. intros; simpl; lia. }
  rewrite Himask.
  rewrite scatter_seq; rewrite ?length_replicate, ?length_seq; try lia.
  by rewrite take_0.
Qed.
End unique_order.

(** ** [fast_2d_int_unique]: the unique rows and the inverse indices *)

(** The result of [fast_2d_int_unique] on a matrix with a column, in terms
    of the unique blobs. *)
Lemma fast_2d_int_unique_result (arr : ndarray) (n m : nat) :
  wf arr -> issubdtype_integer (dtype_of arr) = true ->
  shape arr = [n; m] -> (0 < m)%nat ->
  let d := dtype_of arr in
  let ki := unique_inverse void_le (row_blob d <$> rows arr) in
  let unq := {| dtype_of := d; shape := [length ki.1; m];
                data := view_items d ki.1 |} in
  fast_2d_int_unique arr = Ok (unq, ki.2) /\
  rows unq = blob_items d <$> ki.1 /\
  Forall (fun k => exists r, r ∈ rows arr /\ k = row_blob d r) ki.1.
Proof.
  intros Hwf Hd Hshape Hm d ki unq.
  destruct (rows_shape arr n m Hwf Hshape) as [Hn Hrows].
  pose proof (wf_itemsize _ Hwf) as Hs.
  assert (Hkeys : Forall (fun k => exists r, r ∈ rows arr /\ k = row_blob d r) ki.1).
  { apply Forall_forall. intros k Hk. apply unique_inverse_subset in Hk.
    apply list_elem_of_fmap in Hk as (r & -> & Hr). eauto. }
  split; [|split; [|done]].
  - unfold fast_2d_int_unique, ndim. rewrite Hd, Hshape.
    cbn [negb length Nat.eqb]. unfold view_void, shape_at. rewrite Hshape.
    cbn [nth].
    destruct (Nat.eqb_spec (itemsize (dtype_of arr) * m) 0) as [Hz|_]; [lia|].
    fold d. fold ki. by destruct ki.
  - unfold rows, shape_at, unq, view_items. cbn [shape nth data].
    rewrite bind_concat.
    rewrite <- (length_fmap (blob_items d) ki.1). apply reshape_concat.
    apply Forall_fmap. eapply Forall_impl; [exact Hkeys|].
    intros k (r & Hr & ->). simpl. rewrite Forall_forall in Hrows.
    destruct (Hrows r Hr) as [Hlen Hrange].
    by rewrite blob_items_row_blob.
Qed.

Lemma row_blob_blob_items (arr : ndarray) (n m : nat) (k : list Z) :
  wf arr -> issubdtype_integer (dtype_of arr) = true -> shape arr = [n; m] ->
  (exists r, r ∈ rows arr /\ k = row_blob (dtype_of arr) r) ->
  row_blob (dtype_of arr) (blob_items (dtype_of arr) k) = k /\
  blob_items (dtype_of arr) k ∈ rows arr.
Proof.
  intros Hwf Hd Hshape (r & Hr & ->).
  destruct (rows_shape arr n m Hwf Hshape) as [_ Hrows].
  rewrite Forall_forall in Hrows. destruct (Hrows r Hr) as [_ Hrange].
  rewrite blob_items_row_blob; [done|done|by apply wf_itemsize|done].
Qed.

(** X1: [fast_2d_int_unique] on a well-formed 2-dimensional integer array
    returns unique rows that are all rows of the input, in an array of the
    input's dtype and number of columns whose first dimension is the number
    of unique rows; there are at most as many unique rows as input rows. *)
Theorem fast_2d_int_unique_rows_of_input (arr : ndarray) (n m : nat) :
  wf arr ->
  issubdtype_integer (dtype_of arr) = true ->
  shape arr = [n; m] ->
  exists unq inv,
    fast_2d_int_unique arr = Ok (unq, inv) /\
    dtype_of unq = dtype_of arr /\
    shape unq = [length (rows unq); m] /\
    (forall r, r ∈ rows unq -> r ∈ rows arr) /\
    (length (rows unq) <= n)%nat.
Proof.
  intros Hwf Hd Hshape.
  destruct (Nat.eq_dec m 0%nat) as [->|Hm].
  { unfold fast_2d_int_unique, ndim, view_void, shape_at.
    rewrite Hd, Hshape. cbn [negb length Nat.eqb nth].
    rewrite Nat.mul_0_r. cbn [Nat.eqb].
    eexists _, _. split; [reflexivity|]. cbn.
    repeat split; try done; [by intros r ?%elem_of_nil|lia]. }
  destruct (fast_2d_int_unique_result arr n m Hwf Hd Hshape ltac:(lia))
    as (Hrun & Hunq & Hkeys).
  destruct (rows_shape arr n m Hwf Hshape) as [Hn _].
  eexists _, _. split; [exact Hrun|]. rewrite Hunq.
  assert (Hsub : forall r, r ∈ blob_items (dtype_of arr) <$>
                   (unique_inverse void_le (row_blob (dtype_of arr) <$> rows arr)).1
                 -> r ∈ rows arr).
  { intros r (k & -> & Hk)%list_elem_of_fmap.
    rewrite Forall_forall in Hkeys.
    by destruct (row_blob_blob_items arr n m k Hwf Hd Hshape (Hkeys k Hk)). }
  split; [done|]. split; [by rewrite length_fmap|]. split; [done|].
  rewrite <- Hn. apply submseteq_length, NoDup_submseteq; [|done].
  apply NoDup_fmap_2_strong; [|apply unique_inverse_NoDup; apply _].
  rewrite Forall_forall in Hkeys.
  intros k1 k2 Hk1 Hk2 Heq.
  destruct (row_blob_blob_items arr n m k1 Hwf Hd Hshape (Hkeys k1 Hk1)) as [<- _].
  destruct (row_blob_blob_items arr n m k2 Hwf Hd Hshape (Hkeys k2 Hk2)) as [<- _].
  by rewrite Heq.
Qed.

Lemma fast_2d_int_unique_rows_of_input_witness :
  wf example_pairs /\
  issubdtype_integer (dtype_of example_pairs) = true /\
  shape example_pairs = [4; 2]%nat /\
  exists unq inv,
    fast_2d_int_unique example_pairs = Ok (unq, inv) /\
    dtype_of unq = dtype_of example_pairs /\
    shape unq = [length (rows unq); 2%nat] /\
    (forall r, r ∈ rows unq -> r ∈ rows example_pairs) /\
    (length (rows unq) <= 4)%nat.
Proof.
  split; [exact example_pairs_wf|]. split; [reflexivity|].
  split; [reflexivity|].
  apply (fast_2d_int_unique_rows_of_input example_pairs 4 2).
  - exact example_pairs_wf.
  - reflexivity.
  - reflexivity.
Defined.

(** X2: on an integer array of shape [(n, m)] with [m > 0],
    [fast_2d_int_unique] returns [n] inverse indices, each of them the
    position of a row among the unique rows. *)
Theorem fast_2d_int_unique_inverse_in_bounds (arr : ndarray) (n m : nat) :
  wf arr ->
  issubdtype_integer (dtype_of arr) = true ->
  shape arr = [n; m] ->
  (0 < m)%nat ->
  exists unq inv,
    fast_2d_int_unique arr = Ok (unq, inv) /\
    length inv = n /\
    Forall (fun j => (j < length (rows unq))%nat) inv.
Proof.
  intros Hwf Hd Hshape Hm.
  destruct (fast_2d_int_unique_result arr n m Hwf Hd Hshape Hm)
    as (Hrun & Hunq & Hkeys).
  destruct (rows_shape arr n m Hwf Hshape) as [Hn _].
  eexists _, _. split; [exact Hrun|].
  assert (Hlen : length (unique_inverse void_le
                   (row_blob (dtype_of arr) <$> rows arr)).2 = n).
  { by rewrite length_unique_inverse, length_fmap. }
  split; [done|]. rewrite Hunq, length_fmap.
  apply Forall_forall. intros j Hj.
  apply list_elem_of_lookup in Hj as [i Hi].
  pose proof (lookup_lt_Some _ _ _ Hi) as Hlt. rewrite Hlen, <- Hn in Hlt.
  destruct (lookup_lt_is_Some_2 (rows arr) i Hlt) as [r Hr].
  destruct (unique_inverse_rebuilds void_le
              (row_blob (dtype_of arr) <$> rows arr) i
              (row_blob (dtype_of arr) r)) as (c & Hc & Hk).
  { by rewrite list_lookup_fmap, Hr. }
  rewrite Hi in Hc. injection Hc as ->. by eapply lookup_lt_Some.
Qed.

Lemma fast_2d_int_unique_inverse_in_bounds_witness :
  wf example_pairs /\
  issubdtype_integer (dtype_of example_pairs) = true /\
  shape example_pairs = [4; 2]%nat /\
  (0 < 2)%nat /\
  exists unq inv,
    fast_2d_int_unique example_pairs = Ok (unq, inv) /\
    length inv = 4%nat /\
    Forall (fun j => (j < length (rows unq))%nat) inv.
Proof.
  split; [exact example_pairs_wf|]. split; [reflexivity|].
  split; [reflexivity|]. split; [lia|].
  apply (fast_2d_int_unique_inverse_in_bounds example_pairs 4 2).
  - exact example_pairs_wf.
  - reflexivity.
  - reflexivity.
  - lia.
Defined.

(** X3: on an integer array with at least one column, two input rows get the
    same inverse index from [fast_2d_int_unique] exactly when the two rows
    are equal. *)
Theorem fast_2d_int_unique_inverse_equal_rows (arr : ndarray) (n m : nat) :
  wf arr ->
  issubdtype_integer (dtype_of arr) = true ->
  shape arr = [n; m] ->
  (0 < m)%nat ->
  exists unq inv,
    fast_2d_int_unique arr = Ok (unq, inv) /\
    forall i j r s a b,
      rows arr !! i = Some r -> rows arr !! j = Some s ->
      inv !! i = Some a -> inv !! j = Some b ->
      (a = b <-> r = s).
Proof.
  intros Hwf Hd Hshape Hm.
  destruct (fast_2d_int_unique_result arr n m Hwf Hd Hshape Hm)
    as (Hrun & Hunq & Hkeys).
  eexists _, _. split; [exact Hrun|].
  intros i j r s a b Hi Hj Ha Hb.
  set (d := dtype_of arr) in *.
  set (ar := row_blob d <$> rows arr) in *.
  destruct (unique_inverse_rebuilds void_le ar i (row_blob d r))
    as (a' & Ha' & Hka).
  { unfold ar. by rewrite list_lookup_fmap, Hi. }
  destruct (unique_inverse_rebuilds void_le ar j (row_blob d s))
    as (b' & Hb' & Hkb).
  { unfold ar. by rewrite list_lookup_fmap, Hj. }
  rewrite Ha in Ha'. rewrite Hb in Hb'. simplify_eq.
  destruct (rows_shape arr n m Hwf Hshape) as [_ Hrows].
  rewrite Forall_forall in Hrows.
  destruct (Hrows r (list_elem_of_lookup_2 _ _ _ Hi)) as [_ Hrr].
  destruct (Hrows s (list_elem_of_lookup_2 _ _ _ Hj)) as [_ Hrs].
  pose proof (wf_itemsize _ Hwf) as Hsz.
  split.
  - intros ->. rewrite Hka in Hkb. injection Hkb as Heq.
    apply (f_equal (blob_items d)) in Heq.
    by rewrite !blob_items_row_blob in Heq.
  - intros ->.
    eapply NoDup_lookup; [|exact Hka|exact Hkb].
    apply unique_inverse_NoDup; apply _.
Qed.

Lemma fast_2d_int_unique_inverse_equal_rows_witness :
  wf example_pairs /\
  issubdtype_integer (dtype_of example_pairs) = true /\
  shape example_pairs = [4; 2]%nat /\
  (0 < 2)%nat /\
  exists unq inv,
    fast_2d_int_unique example_pairs = Ok (unq, inv) /\
    forall i j r s a b,
      rows example_pairs !! i = Some r -> rows example_pairs !! j = Some s ->
      inv !! i = Some a -> inv !! j = Some b ->
      (a = b <-> r = s).
Proof.
  split; [exact example_pairs_wf|]. split; [reflexivity|].
  split; [reflexivity|]. split; [lia|].
  apply (fast_2d_int_unique_inverse_equal_rows example_pairs 4 2).
  - exact example_pairs_wf.
  - reflexivity.
  - reflexivity.
  - lia.
Defined.


(** X4: on an integer array with at least one column, the unique rows of
    [fast_2d_int_unique] come in strictly ascending order of their blobs,
    the bytes of a row compared as [np.unique] compares the items of the
    void view. *)
Theorem fast_2d_int_unique_blob_order (arr : ndarray) (n m : nat) :
  wf arr ->
  issubdtype_integer (dtype_of arr) = true ->
  shape arr = [n; m] ->
  (0 < m)%nat ->
  exists unq inv,
    fast_2d_int_unique arr = Ok (unq, inv) /\
    StronglySorted (blob_lt (dtype_of arr)) (rows unq).
Proof.
  intros Hwf Hd Hshape Hm.
  destruct (fast_2d_int_unique_result arr n m Hwf Hd Hshape Hm)
    as (Hrun & Hunq & Hkeys).
  eexists _, _. split; [exact Hrun|]. rewrite Hunq.
  pose proof (unique_inverse_sorted void_le
                (row_blob (dtype_of arr) <$> rows arr)) as Hs.
  revert Hkeys Hs. generalize (unique_inverse void_le
                (row_blob (dtype_of arr) <$> rows arr)).1. intros keys Hkeys Hs.
  induction Hs as [|k keys Hs IH Hk]; [constructor|].
  apply Forall_cons in Hkeys as [Hk0 Hkeys]. rewrite fmap_cons.
  constructor; [by apply IH|].
  apply Forall_fmap, Forall_forall. intros k' Hk'. simpl. unfold blob_lt.
  rewrite Forall_forall in Hkeys, Hk.
  destruct (row_blob_blob_items arr n m k Hwf Hd Hshape Hk0) as [-> _].
  destruct (row_blob_blob_items arr n m k' Hwf Hd Hshape (Hkeys k' Hk')) as [-> _].
  destruct (Hk k' Hk') as [Hle Hne]. unfold void_le in Hle.
  destruct (void_compare k k') eqn:Hc; try done.
  by apply void_compare_eq in Hc.
Qed.

Lemma fast_2d_int_unique_blob_order_witness :
  wf example_pairs /\
  issubdtype_integer (dtype_of example_pairs) = true /\
  shape example_pairs = [4; 2]%nat /\
  (0 < 2)%nat /\
  exists unq inv,
    fast_2d_int_unique example_pairs = Ok (unq, inv) /\
    StronglySorted (blob_lt (dtype_of example_pairs)) (rows unq).
Proof.
  split; [exact example_pairs_wf|]. split; [reflexivity|].
  split; [reflexivity|]. split; [lia|].
  apply (fast_2d_int_unique_blob_order example_pairs 4 2).
  - exact example_pairs_wf.
  - reflexivity.
  - reflexivity.
  - lia.
Defined.

(** X5: [fast_2d_int_unique] applied to the unique rows it returned gives
    them back unchanged, with the inverse indices [0, 1, ..., k - 1]. *)
Theorem fast_2d_int_unique_idempotent (arr : ndarray) (n m : nat) :
  wf arr ->
  issubdtype_integer (dtype_of arr) = true ->
  shape arr = [n; m] ->
  (0 < m)%nat ->
  exists unq inv,
    fast_2d_int_unique arr = Ok (unq, inv) /\
    fast_2d_int_unique unq = Ok (unq, seq 0 (length (rows unq))).
Proof.
  intros Hwf Hd Hshape Hm.
  destruct (fast_2d_int_unique_result arr n m Hwf Hd Hshape Hm)
    as (Hrun & Hunq & Hkeys).
  pose proof (wf_itemsize _ Hwf) as Hsz.
  eexists _, _. split; [exact Hrun|].
  pose proof (unique_inverse_sorted void_le
                (row_blob (dtype_of arr) <$> rows arr)) as Hs.
  revert Hunq Hkeys Hs. generalize (unique_inverse void_le
                (row_blob (dtype_of arr) <$> rows arr)).1. intros keys Hunq Hkeys Hs.
  unfold fast_2d_int_unique at 1. unfold ndim. cbn [dtype_of shape].
  rewrite Hd. cbn [negb length Nat.eqb]. unfold view_void.
  unfold shape_at at 1. cbn [shape nth].
  destruct (Nat.eqb_spec (itemsize (dtype_of arr) * m) 0) as [Hz|_]; [lia|].
  rewrite Hunq. cbn [dtype_of].
  assert (Hback : row_blob (dtype_of arr) <$> (blob_items (dtype_of arr) <$> keys)
                  = keys).
  { rewrite <- list_fmap_compose. rewrite <- (list_fmap_id keys) at 2.
    apply list_fmap_ext. intros i k Hk. simpl.
    rewrite Forall_forall in Hkeys.
    by destruct (row_blob_blob_items arr n m k Hwf Hd Hshape
                   (Hkeys k (list_elem_of_lookup_2 _ _ _ Hk))). }
  rewrite Hback. rewrite (unique_inverse_strict void_le keys Hs).
  rewrite length_fmap. reflexivity.
Qed.

Lemma fast_2d_int_unique_idempotent_witness :
  wf example_pairs /\
  issubdtype_integer (dtype_of example_pairs) = true /\
  shape example_pairs = [4; 2]%nat /\
  (0 < 2)%nat /\
  exists unq inv,
    fast_2d_int_unique example_pairs = Ok (unq, inv) /\
    fast_2d_int_unique unq = Ok (unq, seq 0 (length (rows unq))).
Proof.
  split; [exact example_pairs_wf|]. split; [reflexivity|].
  split; [reflexivity|]. split; [lia|].
  apply (fast_2d_int_unique_idempotent example_pairs 4 2).
  - exact example_pairs_wf.
  - reflexivity.
  - reflexivity.
  - lia.
Defined.

(** ** [fast_2d_2col_int_unique]: the result as a set of pairs *)

(** The result of [fast_2d_2col_int_unique] on non-negative pairs inside
    the coordinate bound: the pairs of the input, strictly ascending. *)
Lemma fast_2d_2col_int_unique_result
    (capacity : Z) (arr : ndarray) (n : nat) :
  wf arr -> issubdtype_integer (dtype_of arr) = true ->
  shape arr = [n; 2%nat] -> Forall (fun z => 0 <= z) (data arr) ->
  coordinate_bound capacity arr ->
  exists res cs,
    fast_2d_2col_int_unique capacity arr = Ok res /\
    rows res = row_of <$> cs /\
    StronglySorted pair_lt cs /\
    (forall p, p ∈ cs <-> p ∈ pair_of <$> rows arr).
Proof.
  intros Hwf Hd Hshape Hpos [Hb64 Hbcap].
  destruct (rows_shape arr n 2 Hwf Hshape) as [Hn Hrows].
  assert (Hndim : ndim arr = 2%nat) by (unfold ndim; by rewrite Hshape).
  assert (Hm : shape_at arr 1 = 2%nat) by (unfold shape_at; by rewrite Hshape).
  assert (Hn0 : shape_at arr 0 = n) by (unfold shape_at; by rewrite Hshape).
  destruct (Nat.eq_dec n 0%nat) as [->|Hnz].
  { exists arr, []. split; [by apply pairs_no_rows|].
    assert (rows arr = []) as -> by (by apply nil_length_inv).
    repeat split; try done; constructor. }
  rewrite pairs_checked by (try done; lia).
  set (row := column 0 arr). set (col := column 1 arr).
  assert (Hzip : zip row col = pair_of <$> rows arr) by apply zip_columns.
  assert (Hnonneg : forall i j, (i, j) ∈ zip row col -> 0 <= i /\ 0 <= j).
  { intros i j Hin. rewrite Hzip in Hin.
    apply list_elem_of_fmap in Hin as (r & [= -> ->] & Hr).
    rewrite Forall_forall in Hrows. rewrite Forall_forall in Hpos.
    destruct (Hrows r Hr) as [Hlen _].
    destruct r as [|a [|b [|c r]]]; try done. simpl.
    split; apply Hpos; apply (elem_of_rows_data arr n 2 [a; b]); try done;
      [left|right; left]. }
  assert (Hlenr : length row = n) by (by apply (length_column arr n 2)).
  assert (Hlenc : length col = n) by (by apply (length_column arr n 2)).
  rewrite csr_matrix_nonneg.
  - cbn [mbind res_bind]. eexists _, (coords row col (seqZ 0 (np_max row + 1))).
    split; [reflexivity|].
    rewrite rows_of_rows.
    2:{ rewrite zip_with_row_of. apply Forall_fmap, Forall_true. done. }
    rewrite zip_with_row_of.
    rewrite (tocoo_coords row col (np_max row + 1) (np_max col + 1)).
    split; [done|]. split; [apply coords_sorted, seqZ_sorted|].
    intros [i j]. rewrite elem_of_coords, <- Hzip. split; [tauto|].
    intros Hin. split; [|done]. apply elem_of_seqZ.
    destruct (Hnonneg i j Hin). apply elem_of_zip_l in Hin.
    apply np_max_ge in Hin. lia.
  - intros Hnil. rewrite Hnil in Hlenr. simpl in Hlenr. lia.
  - intros Hnil. rewrite Hnil in Hlenc. simpl in Hlenc. lia.
  - apply Forall_forall. intros i Hi.
    apply list_elem_of_lookup in Hi as [k Hk].
    destruct (lookup_lt_is_Some_2 col k) as [j Hj].
    { apply lookup_lt_Some in Hk. lia. }
    apply (Hnonneg i j). apply list_elem_of_lookup. exists k.
    by apply lookup_zip_Some.
  - apply Forall_forall. intros j Hj.
    apply list_elem_of_lookup in Hj as [k Hk].
    destruct (lookup_lt_is_Some_2 row k) as [i Hi].
    { apply lookup_lt_Some in Hk. lia. }
    apply (Hnonneg i j). apply list_elem_of_lookup. exists k.
    by apply lookup_zip_Some.
  - apply (Forall_column _ arr n 0); auto.
  - apply (Forall_column _ arr n 1); auto.
  - exact Hbcap.
Qed.

Lemma pair_lt_sorted_unique (l k : list (Z * Z)) :
  StronglySorted pair_lt l -> StronglySorted pair_lt k ->
  (forall p, p ∈ l <-> p ∈ k) -> l = k.
Proof.
  intros Hl Hk Hlk.
  apply (StronglySorted_unique_strong pair_lt); try done.
  - intros [a b] [c d] _ _. unfold pair_lt. simpl. lia.
  - apply NoDup_Permutation; [by apply pair_lt_irrefl_sorted..|done].
Qed.

(** X6: inside the coordinate bound of the sparse structure,
    [fast_2d_2col_int_unique] depends on the set of input pairs only: two
    2-column integer arrays without negative entries, with entries that fit
    64-bit indices and row pointers that the machine can allocate, that have
    the same set of rows, in whatever order and however often, give results
    with the same rows in the same order. *)
Theorem fast_2d_2col_int_unique_set
    (capacity : Z) (arr1 arr2 : ndarray) (n1 n2 : nat) :
  wf arr1 -> wf arr2 ->
  issubdtype_integer (dtype_of arr1) = true ->
  issubdtype_integer (dtype_of arr2) = true ->
  shape arr1 = [n1; 2%nat] -> shape arr2 = [n2; 2%nat] ->
  Forall (fun z => 0 <= z) (data arr1) ->
  Forall (fun z => 0 <= z) (data arr2) ->
  coordinate_bound capacity arr1 ->
  coordinate_bound capacity arr2 ->
  (forall r, r ∈ rows arr1 <-> r ∈ rows arr2) ->
  exists res1 res2,
    fast_2d_2col_int_unique capacity arr1 = Ok res1 /\
    fast_2d_2col_int_unique capacity arr2 = Ok res2 /\
    rows res1 = rows res2.
Proof.
  intros Hwf1 Hwf2 Hd1 Hd2 Hs1 Hs2 Hp1 Hp2 Hb1 Hb2 Hsame.
  destruct (fast_2d_2col_int_unique_result capacity arr1 n1
              Hwf1 Hd1 Hs1 Hp1 Hb1)
    as (res1 & cs1 & Hr1 & Hrows1 & Hsort1 & Hin1).
  destruct (fast_2d_2col_int_unique_result capacity arr2 n2
              Hwf2 Hd2 Hs2 Hp2 Hb2)
    as (res2 & cs2 & Hr2 & Hrows2 & Hsort2 & Hin2).
  exists res1, res2. split; [done|]. split; [done|].
  rewrite Hrows1, Hrows2. f_equal.
  apply pair_lt_sorted_unique; try done.
  intros p. rewrite Hin1, Hin2, !list_elem_of_fmap.
  split; intros (r & -> & Hr); exists r; (split; [done|]); by apply Hsame.
Qed.

Lemma example_pairs_once_wf : wf example_pairs_once.
Proof.
  constructor; simpl; [reflexivity| |lia].
  repeat constructor; simpl; lia.
Defined.

Lemma example_pairs_same_rows :
  forall r, r ∈ rows example_pairs <-> r ∈ rows example_pairs_once.
Proof.
  intros r.
  change (rows example_pairs) with [[2; 1]; [1; 1]; [1; 1]; [2; 0]].
  change (rows example_pairs_once) with [[2; 0]; [1; 1]; [2; 1]].
  rewrite !elem_of_cons, !elem_of_nil. tauto.
Defined.

Lemma example_pairs_once_bound :
  coordinate_bound example_capacity example_pairs_once.
Proof. split; repeat constructor; vm_compute; congruence. Defined.

Lemma fast_2d_2col_int_unique_set_witness :
  wf example_pairs /\ wf example_pairs_once /\
  issubdtype_integer (dtype_of example_pairs) = true /\
  issubdtype_integer (dtype_of example_pairs_once) = true /\
  shape example_pairs = [4; 2]%nat /\
  shape example_pairs_once = [3; 2]%nat /\
  Forall (fun z => 0 <= z) (data example_pairs) /\
  Forall (fun z => 0 <= z) (data example_pairs_once) /\
  coordinate_bound example_capacity example_pairs /\
  coordinate_bound example_capacity example_pairs_once /\
  (forall r, r ∈ rows example_pairs <-> r ∈ rows example_pairs_once) /\
  exists res1 res2,
    fast_2d_2col_int_unique example_capacity example_pairs = Ok res1 /\
    fast_2d_2col_int_unique example_capacity example_pairs_once = Ok res2 /\
    rows res1 = rows res2.
Proof.
  assert (Hpos1 : Forall (fun z => 0 <= z) (data example_pairs))
    by (repeat constructor; lia).
  assert (Hpos2 : Forall (fun z => 0 <= z) (data example_pairs_once))
    by (repeat constructor; lia).
  split; [exact example_pairs_wf|]. split; [exact example_pairs_once_wf|].
  split; [reflexivity|]. split; [reflexivity|].
  split; [reflexivity|]. split; [reflexivity|].
  split; [exact Hpos1|]. split; [exact Hpos2|].
  split; [exact example_pairs_bound|].
  split; [exact example_pairs_once_bound|].
  split; [exact example_pairs_same_rows|].
  apply (fast_2d_2col_int_unique_set example_capacity
           example_pairs example_pairs_once 4 3).
  - exact example_pairs_wf.
  - exact example_pairs_once_wf.
  - reflexivity.
  - reflexivity.
  - reflexivity.
  - reflexivity.
  - exact Hpos1.
  - exact Hpos2.
  - exact example_pairs_bound.
  - exact example_pairs_once_bound.
  - exact example_pairs_same_rows.
Defined.

(** X7: on a 2-column integer array without negative entries and inside
    the coordinate bound of the sparse structure (entries that fit 64-bit
    indices, row pointers that the machine can allocate),
    [fast_2d_2col_int_unique] and [fast_2d_int_unique] return the same rows,
    up to their order. *)
Theorem unique_rows_unique_pairs (capacity : Z) (arr : ndarray) (n : nat) :
  wf arr ->
  issubdtype_integer (dtype_of arr) = true ->
  shape arr = [n; 2%nat] ->
  Forall (fun z => 0 <= z) (data arr) ->
  coordinate_bound capacity arr ->
  exists unq inv res,
    fast_2d_int_unique arr = Ok (unq, inv) /\
    fast_2d_2col_int_unique capacity arr = Ok res /\
    rows res ≡ₚ rows unq.
Proof.
  intros Hwf Hd Hshape Hpos Hbound.
  destruct (fast_2d_2col_int_unique_result capacity arr n
              Hwf Hd Hshape Hpos Hbound)
    as (res & cs & Hres & Hrows & Hsort & Hin).
  destruct (fast_2d_int_unique_result arr n 2 Hwf Hd Hshape ltac:(lia))
    as (Hrun & Hunq & Hkeys).
  destruct (rows_shape arr n 2 Hwf Hshape) as [_ Hlen].
  rewrite Forall_forall in Hlen. rewrite Forall_forall in Hkeys.
  pose proof (wf_itemsize _ Hwf) as Hsz.
  eexists _, _, res. split; [exact Hrun|]. split; [done|].
  rewrite Hunq, Hrows.
  set (d := dtype_of arr) in *.
  set (ar := row_blob d <$> rows arr) in *.
  apply NoDup_Permutation.
  - apply NoDup_fmap_2_strong; [|by apply pair_lt_irrefl_sorted].
    intros [] [] _ _ [= -> ->]. done.
  - apply NoDup_fmap_2_strong; [|apply unique_inverse_NoDup; apply _].
    intros k1 k2 Hk1 Hk2 Heq.
    destruct (row_blob_blob_items arr n 2 k1 Hwf Hd Hshape (Hkeys k1 Hk1)) as [<- _].
    destruct (row_blob_blob_items arr n 2 k2 Hwf Hd Hshape (Hkeys k2 Hk2)) as [<- _].
    fold d. by rewrite Heq.
  - intros r. rewrite !list_elem_of_fmap. split.
    + intros (p & -> & Hp). apply Hin in Hp.
      apply list_elem_of_fmap in Hp as (r & -> & Hr).
      destruct (Hlen r Hr) as [Hl Hrange]. rewrite row_of_pair_of by done.
      exists (row_blob d r). split; [by rewrite blob_items_row_blob|].
      apply list_elem_of_lookup in Hr as [i Hi].
      destruct (unique_inverse_rebuilds void_le ar i (row_blob d r))
        as (c & _ & Hc).
      { unfold ar. by rewrite list_lookup_fmap, Hi. }
      by eapply list_elem_of_lookup_2.
    + intros (k & -> & Hk).
      destruct (row_blob_blob_items arr n 2 k Hwf Hd Hshape (Hkeys k Hk))
        as [_ Hr].
      exists (pair_of (blob_items d k)).
      destruct (Hlen _ Hr) as [Hl _]. rewrite row_of_pair_of by done.
      split; [done|]. apply Hin. by apply list_elem_of_fmap_2.
Qed.

Lemma unique_rows_unique_pairs_witness :
  wf example_pairs /\
  issubdtype_integer (dtype_of example_pairs) = true /\
  shape example_pairs = [4; 2]%nat /\
  Forall (fun z => 0 <= z) (data example_pairs) /\
  coordinate_bound example_capacity example_pairs /\
  exists unq inv res,
    fast_2d_int_unique example_pairs = Ok (unq, inv) /\
    fast_2d_2col_int_unique example_capacity example_pairs = Ok res /\
    rows res ≡ₚ rows unq.
Proof.
  assert (Hpos : Forall (fun z => 0 <= z) (data example_pairs))
    by (repeat constructor; lia).
  split; [exact example_pairs_wf|]. split; [reflexivity|].
  split; [reflexivity|]. split; [exact Hpos|].
  split; [exact example_pairs_bound|].
  apply (unique_rows_unique_pairs example_capacity example_pairs 4).
  - exact example_pairs_wf.
  - reflexivity.
  - reflexivity.
  - exact Hpos.
  - exact example_pairs_bound.
Defined.

(** ** [fast_isin_for_sorted_test_elements] on sorted test elements *)

(** In a sorted array the two insertion points of [v] differ by 1 exactly
    when [v] occurs once. *)
Lemma searchsorted_once (l : list Z) (v : Z) :
  StronglySorted Z.le l ->
  (searchsorted1 l right_side v =? searchsorted1 l left_side v + 1)%nat
  = (occurrences v l =? 1)%nat.
Proof.
  intros Hs. rewrite !searchsorted1_count by done. rewrite count_le_lt.
  destruct (Nat.eqb_spec (occurrences v l) 1);
    [apply Nat.eqb_eq|apply Nat.eqb_neq]; lia.
Qed.

(** X8: when the dtypes of the two arrays meet in an integer dtype (two
    integer arrays, other than [uint64] against a signed dtype) and the test
    elements are in ascending order, [fast_isin_for_sorted_test_elements]
    answers for every element whether it occurs among the test elements
    exactly once, and the negation of that with [invert=True]. *)
Theorem fast_isin_for_sorted_exactly_once
    (elements test_elements : ndarray) (invert : bool) :
  common_integer_dtype test_elements elements ->
  StronglySorted Z.le (data test_elements) ->
  fast_isin_for_sorted_test_elements elements test_elements invert
  = (fun v => xorb invert (occurrences v (data test_elements) =? 1)%nat)
      <$> data elements.
Proof.
  intros Hd Hs. rewrite fast_isin_for_sorted_exact by exact Hd.
  apply list_fmap_ext. intros _ v _. simpl.
  by rewrite searchsorted_once.
Qed.

Lemma fast_isin_for_sorted_exactly_once_witness :
  common_integer_dtype one_twice one /\
  StronglySorted Z.le (data one_twice) /\
  fast_isin_for_sorted_test_elements one one_twice false
  = (fun v => xorb false (occurrences v (data one_twice) =? 1)%nat)
      <$> data one.
Proof.
  assert (Hd : common_integer_dtype one_twice one) by reflexivity.
  assert (Hs : StronglySorted Z.le (data one_twice)).
  { simpl. repeat constructor. lia. }
  split; [exact Hd|]. split; [exact Hs|].
  apply (fast_isin_for_sorted_exactly_once one one_twice false Hd Hs).
Defined.

Lemma fast_isin_membership (elements test_elements : ndarray) :
  fast_isin elements test_elements
  = (fun v => bool_decide (v ∈ data test_elements)) <$> data elements.
Proof. unfold fast_isin. by destruct (_ || _). Qed.

(** X9: when the dtypes of the two arrays meet in an integer dtype (two
    integer arrays, other than [uint64] against a signed dtype) and the test
    elements are in strictly ascending order,
    [fast_isin_for_sorted_test_elements] gives the answers of [fast_isin] on
    the same arguments, and with [invert=True] their negations. *)
Theorem fast_isin_for_sorted_strict
    (elements test_elements : ndarray) (invert : bool) :
  common_integer_dtype test_elements elements ->
  StronglySorted Z.lt (data test_elements) ->
  fast_isin_for_sorted_test_elements elements test_elements invert
  = xorb invert <$> fast_isin elements test_elements.
Proof.
  intros Hd Hs.
  assert (Hle : StronglySorted Z.le (data test_elements)).
  { induction Hs as [|x l Hl IH Hx]; constructor; [done|].
    eapply Forall_impl; [exact Hx|]. simpl. lia. }
  assert (Hnd : NoDup (data test_elements)).
  { induction Hs as [|x l Hl IH Hx]; constructor.
    - intros Hin. rewrite Forall_forall in Hx. specialize (Hx x Hin). lia.
    - apply IH. by apply StronglySorted_cons in Hle as []. }
  rewrite fast_isin_for_sorted_exact by exact Hd.
  rewrite fast_isin_membership, <- list_fmap_compose.
  apply list_fmap_ext. intros _ v _. simpl.
  rewrite searchsorted_once by done.
  rewrite occurrences_NoDup by done. by case_bool_decide.
Qed.

Lemma fast_isin_for_sorted_strict_witness :
  common_integer_dtype one one_twice /\
  StronglySorted Z.lt (data one) /\
  fast_isin_for_sorted_test_elements one_twice one true
  = xorb true <$> fast_isin one_twice one.
Proof.
  assert (Hd : common_integer_dtype one one_twice) by reflexivity.
  assert (Hs : StronglySorted Z.lt (data one)).
  { simpl. repeat constructor. }
  split; [exact Hd|]. split; [exact Hs|].
  apply (fast_isin_for_sorted_strict one_twice one true Hd Hs).
Defined.

(** * Proofs: further properties of the two-tower model *)

(** ** The towers at the edges: wrong width, zero input *)

Section tower_facts.
Import Torch DSSMNoInteractions.
Local Open Scope R_scope.


Lemma Linear_forward_width (L : Linear) (X : Tensor) :
  Exists (fun x => length x <> in_features L) X ->
  Linear_forward L X = Raise width_error.
Proof.
  intros HX. unfold Linear_forward.
  destruct (forallb _ X) eqn:Hall; [|done].
  rewrite forallb_forall in Hall.
  apply Exists_exists in HX as (x & Hx & Hne).
  apply list_elem_of_In, Hall, Nat.eqb_eq in Hx. done.
Qed.

(** X10: a batch with a row that is not [dim_input] wide makes
    [ItemNet.forward] and [UserNet.forward] raise the shape error of the
    first linear layer, whatever the weights. *)
Theorem tower_wrong_width (n_factors dim_input : nat) (act : R -> R)
    (W_emb W_dense W_out : list (list R)) (X : Tensor) :
  Exists (fun x => length x <> dim_input) X ->
  ItemNet.forward (ItemNet.init n_factors dim_input act W_emb W_dense W_out) X
    = Raise width_error /\
  UserNet.forward (UserNet.init n_factors dim_input act W_emb W_dense W_out) X
    = Raise width_error.
Proof.
  intros HX. unfold ItemNet.forward, UserNet.forward. simpl.
  by rewrite !Linear_forward_width.
Qed.

Lemma tower_wrong_width_witness :
  Exists (fun x : list R => length x <> 1%nat) [[1; 2]] /\
  ItemNet.forward (ItemNet.init 1 1 elu [[1]] [[1]] [[1]]) [[1; 2]]
    = Raise width_error /\
  UserNet.forward (UserNet.init 1 1 elu [[1]] [[1]] [[1]]) [[1; 2]]
    = Raise width_error.
Proof.
  assert (HX : Exists (fun x : list R => length x <> 1%nat) [[1; 2]]).
  { constructor. simpl. lia. }
  split; [exact HX|].
  apply (tower_wrong_width 1 1 elu [[1]] [[1]] [[1]] [[1; 2]] HX).
Defined.

Lemma dot_zeros (w : list R) (n : nat) : dot w (replicate n 0) = 0.
Proof.
  unfold dot. revert n. induction w as [|a w IH]; intros [|n]; simpl; try done.
  rewrite IH. lra.
Qed.

Lemma matvec_zeros (W : list (list R)) (n : nat) :
  matvec W (replicate n 0) = replicate (length W) 0.
Proof.
  unfold matvec. induction W as [|w W IH]; simpl; [done|].
  f_equal; [apply dot_zeros|apply IH].
Qed.

Lemma fmap_zeros (act : R -> R) (n : nat) :
  act 0 = 0 -> act <$> replicate n 0 = replicate n 0.
Proof.
  intros H. induction n as [|n IH]; simpl; [done|].
  f_equal; [exact H|apply IH].
Qed.

Lemma add_zeros (n : nat) :
  zip_with Rplus (replicate n 0) (replicate n 0) = replicate n 0.
Proof. induction n as [|n IH]; simpl; [done|]. f_equal; [lra|apply IH]. Qed.

Lemma tower_zeros (act : R -> R) (n_factors dim_input : nat) (w : weights) :
  weights_wf n_factors dim_input w -> act 0 = 0 ->
  tower_of act w (replicate dim_input 0) = replicate n_factors 0.
Proof.
  intros ([He _] & [Hd _] & [Ho _]) Hact. simpl in *.
  unfold tower_of, tower.
  rewrite matvec_zeros, fmap_zeros, He by done.
  rewrite matvec_zeros, fmap_zeros, Hd by done.
  by rewrite add_zeros, matvec_zeros, Ho.
Qed.

Lemma elu_0 : elu 0 = 0.
Proof. unfold elu. destruct (Rlt_dec 0 0); [lra|]. rewrite exp_0. lra. Qed.

(** X11: with an activation that fixes 0, such as ELU, both towers send the
    zero feature vector to the zero embedding: no layer adds a bias. *)
Theorem tower_zero_input (n_factors dim_input : nat) (act : R -> R)
    (wu wi : weights) :
  weights_wf n_factors dim_input wu ->
  weights_wf n_factors dim_input wi ->
  act 0 = 0 ->
  UserNet.forward
    (UserNet.init n_factors dim_input act (W_emb wu) (W_dense wu) (W_out wu))
    [replicate dim_input 0] = Ok [replicate n_factors 0] /\
  ItemNet.forward
    (ItemNet.init n_factors dim_input act (W_emb wi) (W_dense wi) (W_out wi))
    [replicate dim_input 0] = Ok [replicate n_factors 0].
Proof.
  intros Hu Hi Hact.
  assert (HX : Forall (fun x : list R => length x = dim_input)
                 [replicate dim_input 0]).
  { repeat constructor. by rewrite length_replicate. }
  rewrite (UserNet_forward_tower n_factors dim_input act wu _ Hu HX).
  rewrite (ItemNet_forward_tower n_factors dim_input act wi _ Hi HX).
  cbn [fmap list_fmap].
  by rewrite !(tower_zeros act n_factors dim_input).
Qed.

Lemma tower_zero_input_witness :
  weights_wf 1 1 unit_weights /\
  elu 0 = 0 /\
  UserNet.forward (UserNet.init 1 1 elu [[1]] [[1]] [[1]]) [[0]] = Ok [[0]] /\
  ItemNet.forward (ItemNet.init 1 1 elu [[1]] [[1]] [[1]]) [[0]] = Ok [[0]].
Proof.
  split; [exact unit_weights_wf|]. split; [exact elu_0|].
  apply (tower_zero_input 1 1 elu unit_weights unit_weights
           unit_weights_wf unit_weights_wf elu_0).
Defined.
End tower_facts.

(** ** The loss of a training step *)

Section loss_facts.
Import Torch DSSMNoInteractions.
Local Open Scope R_scope.

(** The value of [training_step] on a well-shaped batch. *)
Lemma training_step_value
    (n_factors dim_input_user dim_input_item : nat)
    (act : R -> R) (lr margin weight_decay : R) (flag : bool)
    (wu wi : weights) (user_features pos neg : Tensor) :
  weights_wf n_factors dim_input_user wu ->
  weights_wf n_factors dim_input_item wi ->
  Forall (fun x => length x = dim_input_user) user_features ->
  Forall (fun x => length x = dim_input_item) pos ->
  Forall (fun x => length x = dim_input_item) neg ->
  length pos = length user_features ->
  length neg = length user_features ->
  let loss := triplet_mean (pairwise_distance default_eps) margin
                (tower_of act wu <$> user_features)
                (tower_of act wi <$> pos)
                (tower_of act wi <$> neg) in
  training_step (init n_factors n_factors dim_input_user dim_input_item
                   act lr margin weight_decay flag wu wi)
                (user_features, pos, neg)
    = Ok (loss, ("loss"%string, loss, flag)).
Proof.
  intros Hu Hi Huser Hpos Hneg Hlp Hln loss.
  pose proof (forward_ok n_factors n_factors dim_input_user dim_input_item
                act lr margin weight_decay flag wu wi pos neg user_features
                Hu Hi Huser Hpos Hneg) as Hfw.
  pose proof (has_shape_tower _ _ act wu user_features Hu) as Hsa.
  pose proof (has_shape_tower _ _ act wi pos Hi) as Hsp.
  pose proof (has_shape_tower _ _ act wi neg Hi) as Hsn.
  rewrite Hlp in Hsp. rewrite Hln in Hsn.
  unfold training_step. rewrite Hfw. cbn [mbind res_bind].
  rewrite (triplet_margin_loss_mean _ _ _ _ _ _ _ Hsa Hsp Hsn).
  reflexivity.
Qed.

Lemma sum_zero (l : list R) :
  Forall (fun x => 0 <= x) l -> sum l = 0 -> Forall (fun x => x = 0) l.
Proof.
  induction 1 as [|x l Hx Hl IH]; simpl; intros Hs; [constructor|].
  pose proof (sum_nonneg l Hl).
  constructor; [lra|]. apply IH. lra.
Qed.

Lemma sum_zeros (l : list R) : Forall (fun x => x = 0) l -> sum l = 0.
Proof. induction 1 as [|x l Hx Hl IH]; simpl; lra. Qed.

Lemma mean_zero_iff (l : list R) :
  l <> [] -> Forall (fun x => 0 <= x) l ->
  mean l = 0 <-> Forall (fun x => x = 0) l.
Proof.
  intros Hne Hl. unfold mean.
  assert (0 < INR (length l)).
  { apply lt_0_INR. destruct l; [done|simpl; lia]. }
  split.
  - intros Hm. apply sum_zero; [done|].
    apply Rmult_integral in Hm as [Hm|Hm]; [done|].
    pose proof (Rinv_0_lt_compat _ H). lra.
  - intros Hz. rewrite sum_zeros by done. lra.
Qed.

(** X12: on a non-empty well-shaped batch the loss that [training_step]
    returns is 0 exactly when every triple keeps the margin:
    [margin + d(anchor, pos) <= d(anchor, neg)], with [d] the distance
    [F.triplet_margin_loss] uses. *)
Theorem training_step_zero_loss
    (n_factors dim_input_user dim_input_item : nat)
    (act : R -> R) (lr margin weight_decay : R) (flag : bool)
    (wu wi : weights) (user_features pos neg : Tensor) :
  weights_wf n_factors dim_input_user wu ->
  weights_wf n_factors dim_input_item wi ->
  Forall (fun x => length x = dim_input_user) user_features ->
  Forall (fun x => length x = dim_input_item) pos ->
  Forall (fun x => length x = dim_input_item) neg ->
  user_features <> [] ->
  length pos = length user_features ->
  length neg = length user_features ->
  exists loss,
    training_step (init n_factors n_factors dim_input_user dim_input_item
                     act lr margin weight_decay flag wu wi)
                  (user_features, pos, neg)
      = Ok (loss, ("loss"%string, loss, flag)) /\
    (loss = 0 <->
     forall i u p n,
       user_features !! i = Some u -> pos !! i = Some p -> neg !! i = Some n ->
       margin + pairwise_distance default_eps (tower_of act wu u) (tower_of act wi p)
       <= pairwise_distance default_eps (tower_of act wu u) (tower_of act wi n)).
Proof.
  intros Hu Hi Huser Hpos Hneg Hne Hlp Hln.
  eexists. split; [by apply training_step_value|].
  unfold triplet_mean. rewrite mean_zero_iff.
  - rewrite Forall_lookup. split.
    + intros Hall i u p n Hiu Hip Hin.
      specialize (Hall i (Rmax 0 (margin
          + pairwise_distance default_eps (tower_of act wu u) (tower_of act wi p)
          - pairwise_distance default_eps (tower_of act wu u) (tower_of act wi n)))).
      assert (Hmax : forall x, Rmax 0 x = 0 -> x <= 0).
      { intros x Hx. pose proof (Rmax_r 0 x). lra. }
      apply Rminus_le, Hmax, Hall.
      apply lookup_zip_with_Some.
      exists (tower_of act wu u), (tower_of act wi p, tower_of act wi n).
      split; [done|]. split; [by rewrite list_lookup_fmap, Hiu|].
      apply lookup_zip_Some. by rewrite !list_lookup_fmap, Hip, Hin.
    + intros Hall i x Hx.
      apply lookup_zip_with_Some in Hx as (a & [b c] & -> & Ha & Hbc).
      apply lookup_zip_Some in Hbc as [Hb Hc]. simpl.
      rewrite list_lookup_fmap in Ha, Hb, Hc.
      destruct (user_features !! i) as [u|] eqn:Hiu; [|done].
      destruct (pos !! i) as [p|] eqn:Hip; [|done].
      destruct (neg !! i) as [n|] eqn:Hin; [|done].
      simplify_eq/=. specialize (Hall i u p n Hiu Hip Hin).
      apply Rmax_left. lra.
  - destruct user_features, pos, neg; done.
  - apply Forall_forall.
    intros x (a & pn & -> & _)%elem_of_zip_with. apply Rmax_l.
Qed.

Lemma training_step_zero_loss_witness :
  weights_wf 1 1 unit_weights /\
  Forall (fun x : list R => length x = 1%nat) [[1]] /\
  Forall (fun x : list R => length x = 1%nat) [[1 / 2]] /\
  Forall (fun x : list R => length x = 1%nat) [[3 / 2]] /\
  exists loss,
    training_step unit_model ([[1]], [[1 / 2]], [[3 / 2]])
      = Ok (loss, ("loss"%string, loss, true)) /\
    (loss = 0 <->
     forall i u p n,
       ([[1]] : Tensor) !! i = Some u -> ([[1 / 2]] : Tensor) !! i = Some p ->
       ([[3 / 2]] : Tensor) !! i = Some n ->
       4 / 10 + pairwise_distance default_eps (tower_of elu unit_weights u)
                  (tower_of elu unit_weights p)
       <= pairwise_distance default_eps (tower_of elu unit_weights u)
            (tower_of elu unit_weights n)).
Proof.
  assert (H1 : Forall (fun x : list R => length x = 1%nat) [[1]])
    by (repeat constructor).
  assert (H2 : Forall (fun x : list R => length x = 1%nat) [[1 / 2]])
    by (repeat constructor).
  assert (H3 : Forall (fun x : list R => length x = 1%nat) [[3 / 2]])
    by (repeat constructor).
  split; [exact unit_weights_wf|].
  split; [exact H1|]. split; [exact H2|]. split; [exact H3|].
  apply (training_step_zero_loss 1 1 1 elu (1 / 100) (4 / 10) (1 / 1000000)
           true unit_weights unit_weights [[1]] [[1 / 2]] [[3 / 2]]
           unit_weights_wf unit_weights_wf H1 H2 H3).
  - discriminate.
  - reflexivity.
  - reflexivity.
Defined.

Lemma mean_const (l : list R) (c : R) :
  l <> [] -> Forall (fun x => x = c) l -> mean l = c.
Proof.
  intros Hne Hl. unfold mean.
  assert (Hsum : sum l = INR (length l) * c).
  { induction Hl as [|x l Hx Hl IH]; [simpl; lra|].
    cbn [sum foldr length]. rewrite S_INR.
    destruct l as [|y l].
    - simpl. lra.
    - unfold sum in IH. rewrite IH by done. lra. }
  rewrite Hsum. field. apply not_0_INR. by destruct l.
Qed.

(** X13: over exact real arithmetic, when the positive and the negative
    item features of a non-empty well-shaped batch are the same, the loss
    that [training_step] returns is [max(0, margin)], whatever the weights
    and the features: the two distances of a triple are the same real number
    and cancel.  (In floating point [margin + d - d] need not be
    [margin].) *)
Theorem training_step_same_items
    (n_factors dim_input_user dim_input_item : nat)
    (act : R -> R) (lr margin weight_decay : R) (flag : bool)
    (wu wi : weights) (user_features items : Tensor) :
  weights_wf n_factors dim_input_user wu ->
  weights_wf n_factors dim_input_item wi ->
  Forall (fun x => length x = dim_input_user) user_features ->
  Forall (fun x => length x = dim_input_item) items ->
  user_features <> [] ->
  length items = length user_features ->
  training_step (init n_factors n_factors dim_input_user dim_input_item
                   act lr margin weight_decay flag wu wi)
                (user_features, items, items)
    = Ok (Rmax 0 margin, ("loss"%string, Rmax 0 margin, flag)).
Proof.
  intros Hu Hi Huser Hitems Hne Hlen.
  rewrite (training_step_value n_factors dim_input_user dim_input_item)
    by done.
  assert (Hmean : triplet_mean (pairwise_distance default_eps) margin
                    (tower_of act wu <$> user_features)
                    (tower_of act wi <$> items) (tower_of act wi <$> items)
                  = Rmax 0 margin).
  { unfold triplet_mean. apply mean_const.
    - destruct user_features, items; done.
    - apply Forall_forall.
      intros x (a & [b c] & -> & _ & Hbc)%elem_of_zip_with.
      apply list_elem_of_lookup in Hbc as [i Hbc].
      apply lookup_zip_Some in Hbc as [Hb Hc]. simpl.
      rewrite Hb in Hc. injection Hc as ->. f_equal. lra. }
  by rewrite Hmean.
Qed.

Lemma training_step_same_items_witness :
  weights_wf 1 1 unit_weights /\
  Forall (fun x : list R => length x = 1%nat) [[1]] /\
  Forall (fun x : list R => length x = 1%nat) [[1 / 2]] /\
  training_step unit_model ([[1]], [[1 / 2]], [[1 / 2]])
    = Ok (Rmax 0 (4 / 10), ("loss"%string, Rmax 0 (4 / 10), true)).
Proof.
  assert (H1 : Forall (fun x : list R => length x = 1%nat) [[1]])
    by (repeat constructor).
  assert (H2 : Forall (fun x : list R => length x = 1%nat) [[1 / 2]])
    by (repeat constructor).
  split; [exact unit_weights_wf|]. split; [exact H1|]. split; [exact H2|].
  apply (training_step_same_items 1 1 1 elu (1 / 100) (4 / 10) (1 / 1000000)
           true unit_weights unit_weights [[1]] [[1 / 2]]
           unit_weights_wf unit_weights_wf H1 H2).
  - discriminate.
  - reflexivity.
Defined.

Lemma sum_le (f g : list R -> list R * list R -> R) (A : Tensor) :
  (forall a pn, f a pn <= g a pn) ->
  forall PN, sum (zip_with f A PN) <= sum (zip_with g A PN).
Proof.
  intros Hfg. induction A as [|a A IH]; intros [|pn PN]; simpl; try lra.
  specialize (IH PN). specialize (Hfg a pn). lra.
Qed.

(** X14: on the same non-empty well-shaped batch and the same weights, a
    larger [triplet_loss_margin] never makes the loss of [training_step]
    smaller. *)
Theorem training_step_margin_monotone
    (n_factors dim_input_user dim_input_item : nat)
    (act : R -> R) (lr margin1 margin2 weight_decay : R) (flag : bool)
    (wu wi : weights) (user_features pos neg : Tensor) :
  weights_wf n_factors dim_input_user wu ->
  weights_wf n_factors dim_input_item wi ->
  Forall (fun x => length x = dim_input_user) user_features ->
  Forall (fun x => length x = dim_input_item) pos ->
  Forall (fun x => length x = dim_input_item) neg ->
  user_features <> [] ->
  length pos = length user_features ->
  length neg = length user_features ->
  margin1 <= margin2 ->
  exists loss1 loss2,
    training_step (init n_factors n_factors dim_input_user dim_input_item
                     act lr margin1 weight_decay flag wu wi)
                  (user_features, pos, neg)
      = Ok (loss1, ("loss"%string, loss1, flag)) /\
    training_step (init n_factors n_factors dim_input_user dim_input_item
                     act lr margin2 weight_decay flag wu wi)
                  (user_features, pos, neg)
      = Ok (loss2, ("loss"%string, loss2, flag)) /\
    loss1 <= loss2.
Proof.
  intros Hu Hi Huser Hpos Hneg Hne Hlp Hln Hm.
  eexists _, _. split; [by apply training_step_value|].
  split; [by apply training_step_value|].
  unfold triplet_mean, mean.
  rewrite !length_zip_with.
  apply Rmult_le_compat_r.
  - apply Rlt_le, Rinv_0_lt_compat, lt_0_INR.
    rewrite !length_fmap, Hlp, Hln.
    destruct user_features; [done|simpl; lia].
  - apply sum_le. intros a pn. apply Rle_max_compat_l. lra.
Qed.

Lemma training_step_margin_monotone_witness :
  weights_wf 1 1 unit_weights /\
  Forall (fun x : list R => length x = 1%nat) [[1]] /\
  Forall (fun x : list R => length x = 1%nat) [[1 / 2]] /\
  Forall (fun x : list R => length x = 1%nat) [[3 / 2]] /\
  4 / 10 <= 1 /\
  exists loss1 loss2,
    training_step unit_model ([[1]], [[1 / 2]], [[3 / 2]])
      = Ok (loss1, ("loss"%string, loss1, true)) /\
    training_step
      (init 1 1 1 1 elu (1 / 100) 1 (1 / 1000000) true
         unit_weights unit_weights)
      ([[1]], [[1 / 2]], [[3 / 2]])
      = Ok (loss2, ("loss"%string, loss2, true)) /\
    loss1 <= loss2.
Proof.
  assert (H1 : Forall (fun x : list R => length x = 1%nat) [[1]])
    by (repeat constructor).
  assert (H2 : Forall (fun x : list R => length x = 1%nat) [[1 / 2]])
    by (repeat constructor).
  assert (H3 : Forall (fun x : list R => length x = 1%nat) [[3 / 2]])
    by (repeat constructor).
  assert (Hm : 4 / 10 <= 1) by lra.
  split; [exact unit_weights_wf|].
  split; [exact H1|]. split; [exact H2|]. split; [exact H3|].
  split; [exact Hm|].
  apply (training_step_margin_monotone 1 1 1 elu (1 / 100) (4 / 10) 1
           (1 / 1000000) true unit_weights unit_weights
           [[1]] [[1 / 2]] [[3 / 2]]
           unit_weights_wf unit_weights_wf H1 H2 H3).
  - discriminate.
  - reflexivity.
  - reflexivity.
  - exact Hm.
Defined.
End loss_facts.

(** ** Inference over batches *)

Section inference_facts.
Import Torch DSSMNoInteractions.
Local Open Scope R_scope.





(** The loop over a dataloader with a row of the wrong width. *)
Lemma for_batches_width (net : Tensor -> res Tensor) (f : list R -> list R)
    (w : nat) (dataloader : list Tensor) :
  (forall b : Tensor, Forall (fun x => length x = w) b -> net b = Ok (f <$> b)) ->
  (forall b : Tensor, Exists (fun x => length x <> w) b ->
     net b = Raise width_error) ->
  Exists (Exists (fun x => length x <> w)) dataloader ->
  forall batches, for_batches net dataloader batches = Raise width_error.
Proof.
  intros Hok Hbad. induction dataloader as [|b rest IH]; intros Hex batches.
  { by apply Exists_nil in Hex. }
  simpl.
  destruct (Forall_Exists_dec (fun x : list R => length x = w)
              (fun x => length x <> w)
              (fun x => Nat.eq_dec (length x) w) b) as [Hb|Hb].
  - rewrite (Hok b Hb). cbn [mbind res_bind]. apply IH.
    apply Exists_cons in Hex as [Hex|Hex]; [|done].
    apply Exists_exists in Hex as (x & Hx & Hne).
    rewrite Forall_forall in Hb. by destruct (Hne (Hb x Hx)).
  - by rewrite (Hbad b Hb).
Qed.

(** X16: a row of the wrong width anywhere in the dataloader makes
    [inference_users] and [inference_items] raise the shape error of the
    tower: the factors of the batches before that row are not returned. *)
Theorem inference_wrong_width
    (n_factors_user n_factors_item dim_input_user dim_input_item : nat)
    (act : R -> R) (lr margin weight_decay : R) (flag : bool)
    (wu wi : weights) (users items : list Tensor) :
  weights_wf n_factors_user dim_input_user wu ->
  weights_wf n_factors_item dim_input_item wi ->
  Exists (Exists (fun x => length x <> dim_input_user)) users ->
  Exists (Exists (fun x => length x <> dim_input_item)) items ->
  let self := init n_factors_user n_factors_item dim_input_user dim_input_item
                act lr margin weight_decay flag wu wi in
  (inference_users self users).2 = Raise width_error /\
  (inference_items self items).2 = Raise width_error.
Proof.
  intros Hu Hi Hxu Hxi self. split.
  - unfold inference_users. cbn [snd].
    rewrite (for_batches_width _ (tower_of act wu) dim_input_user); try done.
    + intros b Hb. by apply (UserNet_forward_tower _ _ act wu b Hu).
    + intros b Hb. unfold UserNet.forward. simpl.
      by rewrite Linear_forward_width.
  - unfold inference_items. cbn [snd].
    rewrite (for_batches_width _ (tower_of act wi) dim_input_item); try done.
    + intros b Hb. by apply (ItemNet_forward_tower _ _ act wi b Hi).
    + intros b Hb. unfold ItemNet.forward. simpl.
      by rewrite Linear_forward_width.
Qed.

Lemma inference_wrong_width_witness :
  let users : list Tensor := [[[1]]; [[2; 3]]] in
  let items : list Tensor := [[[4]; []]] in
  weights_wf 1 1 unit_weights /\
  Exists (Exists (fun x : list R => length x <> 1%nat)) users /\
  Exists (Exists (fun x : list R => length x <> 1%nat)) items /\
  (inference_users unit_model users).2 = Raise width_error /\
  (inference_items unit_model items).2 = Raise width_error.
Proof.
  intros users items.
  assert (Hu : Exists (Exists (fun x : list R => length x <> 1%nat)) users).
  { apply Exists_cons_tl, Exists_cons_hd, Exists_cons_hd. simpl. lia. }
  assert (Hi : Exists (Exists (fun x : list R => length x <> 1%nat)) items).
  { apply Exists_cons_hd, Exists_cons_tl, Exists_cons_hd. simpl. lia. }
  split; [exact unit_weights_wf|]. split; [exact Hu|]. split; [exact Hi|].
  apply (inference_wrong_width 1 1 1 1 elu (1 / 100) (4 / 10) (1 / 1000000)
           true unit_weights unit_weights users items
           unit_weights_wf unit_weights_wf Hu Hi).
Defined.
End inference_facts.

(** ** The factors of a fitted model *)

Section factors_facts.
Import Torch DSSMNoInteractions DSSMModelNoInteractions.
Local Open Scope R_scope.

Lemma concat_batches (batch_size : nat) :
  (0 < batch_size)%nat ->
  forall (fuel : nat) (items : list (list R)),
    (length items <= fuel)%nat ->
    concat (batches fuel batch_size items) = items.
Proof.
  intros Hb. induction fuel as [|fuel IH]; intros items Hlen.
  { destruct items; [done|simpl in Hlen; lia]. }
  destruct items as [|x items]; [done|].
  cbn [batches concat]. rewrite IH, take_drop; [done|].
  rewrite length_drop. simpl in *. lia.
Qed.

Lemma batches_nonempty (fuel batch_size : nat) (items : list (list R)) :
  items <> [] -> (0 < fuel)%nat -> batches fuel batch_size items <> [].
Proof. destruct fuel, items; simpl; try done. lia. Qed.

Lemma batches_width (P : list R -> Prop) (batch_size : nat) :
  forall (fuel : nat) (items : list (list R)),
    Forall P items -> Forall (Forall P) (batches fuel batch_size items).
Proof.
  induction fuel as [|fuel IH]; intros items HP; [constructor|].
  destruct items as [|x items]; [constructor|].
  cbn [batches]. constructor; [by apply Forall_take|by apply IH, Forall_drop].
Qed.

(** X17: [_get_users_factors] and [_get_items_factors] of a fitted model
    return, for a non-empty dataset of well-shaped feature rows and every
    positive batch size and number of workers, the tower outputs of the rows
    in the order of the dataset. *)
Theorem factors_of_dataset
    (n_factors_user n_factors_item dim_input_user dim_input_item : nat)
    (act : R -> R) (lr margin weight_decay : R) (flag : bool)
    (wu wi : weights) (batch_size workers : nat)
    (user_features item_features : list (list R)) :
  weights_wf n_factors_user dim_input_user wu ->
  weights_wf n_factors_item dim_input_item wi ->
  (0 < batch_size)%nat ->
  user_features <> [] -> item_features <> [] ->
  Forall (fun x => length x = dim_input_user) user_features ->
  Forall (fun x => length x = dim_input_item) item_features ->
  let self :=
    {| model := init n_factors_user n_factors_item dim_input_user
                  dim_input_item act lr margin weight_decay flag wu wi;
       DSSMModelNoInteractions.batch_size := batch_size;
       dataloader_num_workers := workers |} in
  (_get_users_factors self user_features).2
    = Ok (mk_Factors (tower_of act wu <$> user_features)) /\
  (_get_items_factors self item_features).2
    = Ok (mk_Factors (tower_of act wi <$> item_features)).
Proof.
  intros Hu Hi Hb Hune Hine Huw Hiw self.
  subst self. unfold _get_users_factors, _get_items_factors, DataLoader.
  cbn [DSSMModelNoInteractions.batch_size model].
  destruct (Nat.eqb_spec batch_size 0) as [|_]; [lia|]. cbn [snd].
  unfold inference_users, inference_items. cbn [snd].
  rewrite (cat_for_batches _ (tower_of act wu)).
  - rewrite (cat_for_batches _ (tower_of act wi)).
    + rewrite !concat_batches by (try done; lia). done.
    + apply batches_nonempty; [done|]. destruct item_features; [done|simpl; lia].
    + eapply Forall_impl; [apply batches_width, Hiw|]. intros b Hbw.
      by apply (ItemNet_forward_tower _ _ act wi b Hi).
  - apply batches_nonempty; [done|]. destruct user_features; [done|simpl; lia].
  - eapply Forall_impl; [apply batches_width, Huw|]. intros b Hbw.
    by apply (UserNet_forward_tower _ _ act wu b Hu).
Qed.

Lemma factors_of_dataset_witness :
  let users : list (list R) := [[1]; [2]; [3]] in
  let items : list (list R) := [[4]; [5]] in
  let self := {| model := unit_model;
                 DSSMModelNoInteractions.batch_size := 2;
                 dataloader_num_workers := 0 |} in
  weights_wf 1 1 unit_weights /\
  (0 < 2)%nat /\
  users <> [] /\ items <> [] /\
  Forall (fun x : list R => length x = 1%nat) users /\
  Forall (fun x : list R => length x = 1%nat) items /\
  (_get_users_factors self users).2
    = Ok (mk_Factors (tower_of elu unit_weights <$> users)) /\
  (_get_items_factors self items).2
    = Ok (mk_Factors (tower_of elu unit_weights <$> items)).
Proof.
  intros users items self.
  assert (Hu : Forall (fun x : list R => length x = 1%nat) users)
    by (repeat constructor).
  assert (Hi : Forall (fun x : list R => length x = 1%nat) items)
    by (repeat constructor).
  assert (Hune : users <> []) by discriminate.
  assert (Hine : items <> []) by discriminate.
  assert (Hb : (0 < 2)%nat) by lia.
  split; [exact unit_weights_wf|]. split; [exact Hb|].
  split; [exact Hune|]. split; [exact Hine|].
  split; [exact Hu|]. split; [exact Hi|].
  apply (factors_of_dataset 1 1 1 1 elu (1 / 100) (4 / 10) (1 / 1000000) true
           unit_weights unit_weights 2 0 users items
           unit_weights_wf unit_weights_wf Hb Hune Hine Hu Hi).
Defined.

(** X18: for a dataset without rows [_get_users_factors] and
    [_get_items_factors] raise: the dataloader yields no batch and
    [torch.cat] gets an empty list. *)
Theorem factors_of_empty_dataset (self : DSSMModelNoInteractions.t) :
  (0 < DSSMModelNoInteractions.batch_size self)%nat ->
  (_get_users_factors self []).2 = Raise empty_cat_error /\
  (_get_items_factors self []).2 = Raise empty_cat_error.
Proof.
  intros Hb. unfold _get_users_factors, _get_items_factors, DataLoader.
  destruct (Nat.eqb_spec (DSSMModelNoInteractions.batch_size self) 0) as [|_];
    [lia|].
  split; reflexivity.
Qed.

Lemma factors_of_empty_dataset_witness :
  let self := {| model := unit_model;
                 DSSMModelNoInteractions.batch_size := 2;
                 dataloader_num_workers := 0 |} in
  (0 < DSSMModelNoInteractions.batch_size self)%nat /\
  (_get_users_factors self []).2 = Raise empty_cat_error /\
  (_get_items_factors self []).2 = Raise empty_cat_error.
Proof.
  intros self.
  assert (Hb : (0 < DSSMModelNoInteractions.batch_size self)%nat)
    by (simpl; lia).
  split; [exact Hb|].
  apply (factors_of_empty_dataset self Hb).
Defined.
End factors_facts.
